(** * GroupService (server/src/group/group.service.ts)

    A shallow embedding of the group orchestrator of the laf server: the
    transactional create/delete protocol over the four collections
    [Group], [GroupMember], [GroupInvite], [GroupApplication], and the
    three aggregation queries that join them.

    The service talks to MongoDB through the Node.js driver.  The part of
    the driver the service relies on is modelled here: BSON documents,
    query filters, the aggregation stages used by the pipelines, sessions
    and multi-document transactions. *)

From Stdlib Require Import List String Bool Arith Lia.
Import ListNotations.
Open Scope string_scope.
Open Scope list_scope.
Set Warnings "-register-all".
Set Implicit Arguments.

(* ===================================================================== *)
(** ** BSON values and documents *)
(* ===================================================================== *)

Module Bson.

(** An [ObjectId] is an opaque 12-byte identifier; only equality matters. *)
Definition ObjectId := nat.

(** A [Date] is an instant; only equality matters. *)
Definition Date := nat.

Inductive value : Type :=
| VNull
| VBool (b : bool)
| VString (s : string)
| VObjectId (o : ObjectId)
| VDate (d : Date)
| VDocument (fields : list (string * value))
| VArray (items : list value).

(** A document is an ordered list of fields, as BSON stores it. *)
Definition document := list (string * value).

Fixpoint value_eqb (a b : value) {struct a} : bool :=
  match a, b with
  | VNull, VNull => true
  | VBool x, VBool y => Bool.eqb x y
  | VString x, VString y => String.eqb x y
  | VObjectId x, VObjectId y => Nat.eqb x y
  | VDate x, VDate y => Nat.eqb x y
  | VDocument xs, VDocument ys =>
      (fix fields_eqb (xs ys : list (string * value)) {struct xs} : bool :=
         match xs, ys with
         | [], [] => true
         | (k, v) :: xs', (k', v') :: ys' =>
             String.eqb k k' && value_eqb v v' && fields_eqb xs' ys'
         | _, _ => false
         end) xs ys
  | VArray xs, VArray ys =>
      (fix items_eqb (xs ys : list value) {struct xs} : bool :=
         match xs, ys with
         | [], [] => true
         | v :: xs', v' :: ys' => value_eqb v v' && items_eqb xs' ys'
         | _, _ => false
         end) xs ys
  | _, _ => false
  end.

(** [get k d]: the value of field [k], [None] when the field is missing. *)
Fixpoint get (k : string) (d : document) : option value :=
  match d with
  | [] => None
  | (k', v) :: d' => if String.eqb k k' then Some v else get k d'
  end.

(** [set_field k v d]: overwrite field [k] in place, or append it. *)
Fixpoint set_field (k : string) (v : value) (d : document) : document :=
  match d with
  | [] => [(k, v)]
  | (k', v') :: d' =>
      if String.eqb k k' then (k, v) :: d' else (k', v') :: set_field k v d'
  end.

(** A dotted path such as ["group"; "_id"], read through embedded
    documents.  The pipelines of this service only follow a path after
    the array has been unwound, so a path that meets an array or a scalar
    is reported as missing. *)
Fixpoint get_path (path : list string) (v : value) : option value :=
  match path with
  | [] => Some v
  | k :: rest =>
      match v with
      | VDocument fields =>
          match get k fields with
          | Some v' => get_path rest v'
          | None => None
          end
      | _ => None
      end
  end.

End Bson.
Export Bson.

(* ===================================================================== *)
(** ** Query filters and aggregation pipelines *)
(* ===================================================================== *)

Module Query.

(** Aggregation expressions: ["$a.b"], ["$$v"], literals, [$eq], [$and]. *)
Inductive expr : Type :=
| EField (path : list string)
| EVar (name : string)
| EConst (v : value)
| EEq (a b : expr)
| EAnd (es : list expr).

(** One field condition of a filter document. *)
Inductive cond : Type :=
| CEq (v : value)          (* { k: v } *)
| CExists (b : bool).      (* { k: { $exists: b } } *)

Inductive clause : Type :=
| Field (k : string) (c : cond)
| Expr (e : expr).         (* { $expr: e } *)

(** A filter document is the conjunction of its clauses. *)
Definition query := list clause.

Inductive projection : Type :=
| Exclude                  (* k: 0 *)
| Include                  (* k: 1 *)
| Compute (e : expr).      (* k: <expression> *)

Inductive stage : Type :=
| Match (q : query)
| Lookup (from localField foreignField : string)
         (pipeline : list stage) (as_ : string)
| LookupLet (from : string) (let_ : list (string * expr))
            (pipeline : list stage) (as_ : string)
| Unwind (field : string)
| Project (spec : list (string * projection)).

Definition env := list (string * value).

Definition opt_eqb (a b : option value) : bool :=
  match a, b with
  | None, None => true
  | Some x, Some y => value_eqb x y
  | _, _ => false
  end.

(** Truthiness of an expression result: missing, null and false are false. *)
Definition truthy (o : option value) : bool :=
  match o with
  | None | Some VNull | Some (VBool false) => false
  | Some _ => true
  end.

Fixpoint eval (vars : env) (d : document) (e : expr) {struct e} : option value :=
  match e with
  | EField path => get_path path (VDocument d)
  | EVar name => get name vars
  | EConst v => Some v
  | EEq a b => Some (VBool (opt_eqb (eval vars d a) (eval vars d b)))
  | EAnd es => Some (VBool (forallb (fun e' => truthy (eval vars d e')) es))
  end.

(** Equality match of a filter: [{k: null}] also matches a missing field,
    and a value matches an array field that contains it. *)
Definition eq_matches (v : value) (field : option value) : bool :=
  match field with
  | None => value_eqb v VNull
  | Some (VArray xs) => value_eqb v (VArray xs) || existsb (value_eqb v) xs
  | Some x => value_eqb v x
  end.

Definition cond_holds (c : cond) (field : option value) : bool :=
  match c with
  | CEq v => eq_matches v field
  | CExists b =>
      Bool.eqb b (match field with Some _ => true | None => false end)
  end.

Definition clause_holds (vars : env) (d : document) (c : clause) : bool :=
  match c with
  | Field k c' => cond_holds c' (get k d)
  | Expr e => truthy (eval vars d e)
  end.

Definition matches (vars : env) (q : query) (d : document) : bool :=
  forallb (clause_holds vars d) q.

(** [$unwind]: one output document per array element; a missing, null or
    empty array drops the document; a non-array value passes through. *)
Definition unwind (k : string) (d : document) : list document :=
  match get k d with
  | None | Some VNull => []
  | Some (VArray xs) => map (fun x => set_field k x d) xs
  | Some _ => [d]
  end.

Definition spec_of (k : string) (spec : list (string * projection))
  : option projection :=
  match find (fun kp => String.eqb k (fst kp)) spec with
  | Some kp => Some (snd kp)
  | None => None
  end.

Definition opt_field (k : string) (o : option value) : document :=
  match o with
  | Some v => [(k, v)]
  | None => []
  end.

(** [$project] in inclusion mode: [_id] first (kept unless excluded or
    recomputed), then the included fields in document order, then the
    computed fields in specification order.  A computed field whose
    expression is missing is omitted. *)
Definition project (vars : env) (spec : list (string * projection))
           (d : document) : document :=
  let id_part :=
    match spec_of "_id" spec with
    | None | Some Include => opt_field "_id" (get "_id" d)
    | Some Exclude => []
    | Some (Compute e) => opt_field "_id" (eval vars d e)
    end in
  let included :=
    filter (fun kv =>
              negb (String.eqb (fst kv) "_id") &&
              match spec_of (fst kv) spec with
              | Some Include => true
              | _ => false
              end) d in
  let computed :=
    flat_map (fun kp =>
                match snd kp with
                | Compute e =>
                    if String.eqb (fst kp) "_id" then []
                    else opt_field (fst kp) (eval vars d e)
                | _ => []
                end) spec in
  id_part ++ included ++ computed.

Definition bind_lets (vars : env) (d : document)
           (let_ : list (string * expr)) : env :=
  flat_map (fun ne => opt_field (fst ne) (eval vars d (snd ne))) let_.

Definition or_null (o : option value) : value :=
  match o with
  | Some v => v
  | None => VNull
  end.

Section Aggregate.

(** The collections of the database, by name (the [from] of [$lookup]). *)
Variable collection : string -> list document.

Fixpoint run_stage (vars : env) (st : stage) (input : list document)
           {struct st} : list document :=
    match st with
    | Match q => filter (matches vars q) input
    | Lookup from localField foreignField pipeline as_ =>
        map (fun d =>
               let joined :=
                 filter (fun f =>
                           eq_matches (or_null (get localField d))
                                      (get foreignField f))
                        (collection from) in
               let sub :=
                 fold_left (fun acc s => run_stage vars s acc) pipeline joined in
               set_field as_ (VArray (map VDocument sub)) d)
            input
    | LookupLet from let_ pipeline as_ =>
        map (fun d =>
               let vars' := bind_lets vars d let_ ++ vars in
               let sub :=
                 fold_left (fun acc s => run_stage vars' s acc) pipeline
                           (collection from) in
               set_field as_ (VArray (map VDocument sub)) d)
            input
    | Unwind k => flat_map (unwind k) input
    | Project spec => map (project vars spec) input
    end.

Definition run_pipeline (vars : env) (pipeline : list stage)
             (input : list document) : list document :=
    fold_left (fun acc s => run_stage vars s acc) pipeline input.

(** [db.collection(name).aggregate(pipeline).toArray()] *)
Definition aggregate (name : string) (pipeline : list stage) : list document :=
    run_pipeline [] pipeline (collection name).

End Aggregate.

End Query.
Export Query.

(* ===================================================================== *)
(** ** Entities and the system database *)
(* ===================================================================== *)

Module Entities.

(** An optional field of a stored document: the key may be missing, hold
    BSON null, or hold a value.  The queries of the service tell the three
    apart ([appid: null] against [appid: { $exists: false }]). *)
Inductive optional (A : Type) : Type :=
| Missing
| Null
| Present (a : A).
Arguments Missing {A}.
Arguments Null {A}.

(** [GroupRole] is a string enum. *)
Definition GroupRole := string.
Definition Owner : GroupRole := "owner".

(** Modelled from the spec: the entity class [./entities/group] is not part
    of the sources.  Section 3: identity is the id; attributes are name,
    createdBy, the optional appid, createdAt and updatedAt. *)
Record Group : Type := mkGroup
  { g_id : ObjectId;                (* _id *)
    g_name : string;                (* name *)
    g_appid : optional string;      (* appid *)
    g_createdBy : ObjectId;         (* createdBy *)
    g_createdAt : Date;             (* createdAt *)
    g_updatedAt : Date }.           (* updatedAt *)

(** Modelled from the spec: [./entities/group-member] is not part of the
    sources.  Section 3: a (groupId, uid) pair with its role. *)
Record GroupMember : Type := mkGroupMember
  { m_id : ObjectId;                (* _id *)
    m_groupId : ObjectId;           (* groupId *)
    m_uid : ObjectId;               (* uid *)
    m_role : GroupRole }.           (* role *)

(** Modelled from the spec: [./entities/group-application] is not part of
    the sources.  Section 3: one row per (groupId, appid) pairing, recorded
    when the group is created, also when [appid] is absent. *)
Record GroupApplication : Type := mkGroupApplication
  { a_id : ObjectId;                (* _id *)
    a_groupId : ObjectId;           (* groupId *)
    a_appid : optional string }.    (* appid *)

(** Modelled from the spec: the invite entity is not part of the sources.
    Section 3: an invite code scoped to a groupId. *)
Record GroupInvite : Type := mkGroupInvite
  { i_id : ObjectId;                (* _id *)
    i_groupId : ObjectId;           (* groupId *)
    i_code : string }.              (* code *)

(** [Partial<Group>], the argument of [update]: each attribute is either
    not supplied or supplied with a value.  [appid] is declared optional,
    so it can also be supplied as [undefined] ([Some None]). *)
Record PartialGroup : Type := mkPartialGroup
  { p_name : option string;
    p_appid : option (option string);
    p_createdBy : option ObjectId;
    p_createdAt : option Date;
    p_updatedAt : option Date }.

(** What the driver writes for an optional JavaScript string: the client
    serialises with [ignoreUndefined = false], so a key whose value is
    [undefined] is kept and stored as BSON null. *)
Definition stored_optional (o : option string) : optional string :=
  match o with
  | Some s => Present s
  | None => Null
  end.

Definition optional_doc (k : string) (f : optional string) : document :=
  match f with
  | Missing => []
  | Null => [(k, VNull)]
  | Present s => [(k, VString s)]
  end.

(** The stored documents. *)
Definition Group_doc (g : Group) : document :=
  [("_id", VObjectId (g_id g)); ("name", VString (g_name g))]
    ++ optional_doc "appid" (g_appid g)
    ++ [("createdBy", VObjectId (g_createdBy g));
        ("createdAt", VDate (g_createdAt g));
        ("updatedAt", VDate (g_updatedAt g))].

Definition GroupMember_doc (m : GroupMember) : document :=
  [("_id", VObjectId (m_id m)); ("groupId", VObjectId (m_groupId m));
   ("uid", VObjectId (m_uid m)); ("role", VString (m_role m))].

Definition GroupApplication_doc (a : GroupApplication) : document :=
  [("_id", VObjectId (a_id a)); ("groupId", VObjectId (a_groupId a))]
    ++ optional_doc "appid" (a_appid a).

Definition GroupInvite_doc (i : GroupInvite) : document :=
  [("_id", VObjectId (i_id i)); ("groupId", VObjectId (i_groupId i));
   ("code", VString (i_code i))].

(** The four collections of the system database. *)
Record Db : Type := mkDb
  { Groups : list Group;
    GroupMembers : list GroupMember;
    GroupInvites : list GroupInvite;
    GroupApplications : list GroupApplication }.

(** The documents of a collection, by collection name. *)
Definition documents (db : Db) (name : string) : list document :=
  if String.eqb name "Group" then map Group_doc (Groups db)
  else if String.eqb name "GroupMember" then map GroupMember_doc (GroupMembers db)
  else if String.eqb name "GroupInvite" then map GroupInvite_doc (GroupInvites db)
  else if String.eqb name "GroupApplication"
       then map GroupApplication_doc (GroupApplications db)
  else [].

(** [db.collection<A>(name)]: a typed handle on one collection. *)
Record Collection (A : Type) : Type := mkCollection
  { coll_name : string;
    coll_doc : A -> document;
    coll_id : A -> ObjectId;
    coll_get : Db -> list A;
    coll_set : list A -> Db -> Db }.

Definition GroupC : Collection Group :=
  {| coll_name := "Group"; coll_doc := Group_doc; coll_id := g_id;
     coll_get := Groups;
     coll_set := fun l db =>
       mkDb l (GroupMembers db) (GroupInvites db) (GroupApplications db) |}.

Definition GroupMemberC : Collection GroupMember :=
  {| coll_name := "GroupMember"; coll_doc := GroupMember_doc; coll_id := m_id;
     coll_get := GroupMembers;
     coll_set := fun l db =>
       mkDb (Groups db) l (GroupInvites db) (GroupApplications db) |}.

Definition GroupInviteC : Collection GroupInvite :=
  {| coll_name := "GroupInvite"; coll_doc := GroupInvite_doc; coll_id := i_id;
     coll_get := GroupInvites;
     coll_set := fun l db =>
       mkDb (Groups db) (GroupMembers db) l (GroupApplications db) |}.

Definition GroupApplicationC : Collection GroupApplication :=
  {| coll_name := "GroupApplication"; coll_doc := GroupApplication_doc;
     coll_id := a_id;
     coll_get := GroupApplications;
     coll_set := fun l db =>
       mkDb (Groups db) (GroupMembers db) (GroupInvites db) l |}.

(** [$set] with a partial group: every supplied attribute overwrites the
    stored one, the others are kept. *)
Definition set_fields (upd : PartialGroup) (g : Group) : Group :=
  {| g_id := g_id g;
     g_name := match p_name upd with Some n => n | None => g_name g end;
     g_appid := match p_appid upd with
                | Some o => stored_optional o
                | None => g_appid g
                end;
     g_createdBy := match p_createdBy upd with
                    | Some u => u
                    | None => g_createdBy g
                    end;
     g_createdAt := match p_createdAt upd with
                    | Some t => t
                    | None => g_createdAt g
                    end;
     g_updatedAt := match p_updatedAt upd with
                    | Some t => t
                    | None => g_updatedAt g
                    end |}.

(** The object spread [{ ...dto, updatedAt: d }]: the later key wins. *)
Definition spread_updatedAt (dto : PartialGroup) (d : Date) : PartialGroup :=
  {| p_name := p_name dto; p_appid := p_appid dto;
     p_createdBy := p_createdBy dto; p_createdAt := p_createdAt dto;
     p_updatedAt := Some d |}.

End Entities.
Export Entities.

(* ===================================================================== *)
(** ** The driver: errors, sessions, transactions, collection methods *)
(* ===================================================================== *)

Module Driver.

Inductive Error : Type :=
| StorageError (code : nat)         (* raised by the storage engine *)
| DuplicateKey (id : ObjectId)      (* E11000 on the _id index *)
| TransactionError (msg : string)   (* MongoTransactionError *)
| ExpiredSession                    (* MongoExpiredSessionError *)
| JsError (msg : string).           (* new Error(msg) *)

(** A round trip to the storage engine that may be made to fail. *)
Inductive Op : Type :=
| Call (collection method : string)
| CommitTransaction.

Inductive TxnState : Type :=
| NoTransaction
| InProgress
| Committed
| Aborted.

(** A [ClientSession]: its transaction state, the working copy of the
    database that an open transaction reads and writes, and whether
    [endSession] has been called on it. *)
Record Session : Type := mkSession
  { txn : TxnState;
    working : Db;
    hasEnded : bool }.

(** Sessions are objects of the client; a [ClientSession] value is a
    reference into [sessions]. *)
Definition SessionRef := nat.

Record LogEntry : Type := mkLogEntry
  { log_message : string;
    log_subject : option ObjectId;
    log_error : Error }.

Record World : Type := mkWorld
  { store : Db;                       (* committed state *)
    sessions : list Session;
    clock : Date;                     (* what [new Date()] reads *)
    nextObjectId : ObjectId;          (* what the driver generates next *)
    logged : list LogEntry;
    faults : Op -> option Error }.

Definition with_store (db : Db) (w : World) : World :=
  mkWorld db (sessions w) (clock w) (nextObjectId w) (logged w) (faults w).

Definition with_sessions (ss : list Session) (w : World) : World :=
  mkWorld (store w) ss (clock w) (nextObjectId w) (logged w) (faults w).

Definition with_nextObjectId (n : ObjectId) (w : World) : World :=
  mkWorld (store w) (sessions w) (clock w) n (logged w) (faults w).

Definition with_logged (l : list LogEntry) (w : World) : World :=
  mkWorld (store w) (sessions w) (clock w) (nextObjectId w) l (faults w).

(** *** Computations: state passing with exceptions *)

Inductive outcome (A : Type) : Type :=
| Return (a : A)
| Throw (e : Error).
Arguments Throw {A} e.

Definition M (A : Type) : Type := World -> outcome A * World.

Definition ret {A} (a : A) : M A := fun w => (Return a, w).

Definition throw {A} (e : Error) : M A := fun w => (Throw e, w).

Definition bind {A B} (m : M A) (k : A -> M B) : M B :=
  fun w =>
    match m w with
    | (Return a, w') => k a w'
    | (Throw e, w') => (Throw e, w')
    end.

(** [try { body } catch (err) { handler }] *)
Definition try_catch {A} (body : M A) (handler : Error -> M A) : M A :=
  fun w =>
    match body w with
    | (Return a, w') => (Return a, w')
    | (Throw e, w') => handler e w'
    end.

(** [try { body } finally { cleanup }]: the cleanup always runs; if it
    throws, its error replaces the outcome of the body. *)
Definition try_finally {A} (body : M A) (cleanup : M unit) : M A :=
  fun w =>
    match body w with
    | (r, w') =>
        match cleanup w' with
        | (Return _, w'') => (r, w'')
        | (Throw e, w'') => (Throw e, w'')
        end
    end.

Definition get_world : M World := fun w => (Return w, w).

Definition put_world (w' : World) : M unit := fun _ => (Return tt, w').

End Driver.
Export Driver.

Declare Scope js_scope.
Delimit Scope js_scope with js.
Notation "x <- m ;; k" := (bind m (fun x => k))
  (at level 61, m at next level, right associativity) : js_scope.
Notation "m ;; k" := (bind m (fun _ => k))
  (at level 61, right associativity) : js_scope.
Open Scope js_scope.

Module Mongo.

(** [new Date()] *)
Definition newDate : M Date := fun w => (Return (clock w), w).

(** The driver's [_id] generator. *)
Definition newObjectId : M ObjectId :=
  fun w => (Return (nextObjectId w), with_nextObjectId (S (nextObjectId w)) w).

(** A call to the storage engine: fails when the fault plan says so. *)
Definition call (op : Op) : M unit :=
  fun w =>
    match faults w op with
    | Some e => (Throw e, w)
    | None => (Return tt, w)
    end.

Fixpoint replace_nth {A} (n : nat) (x : A) (l : list A) : list A :=
  match l, n with
  | [], _ => []
  | _ :: l', O => x :: l'
  | y :: l', S n' => y :: replace_nth n' x l'
  end.

Definition get_session (s : SessionRef) : M Session :=
  fun w =>
    match nth_error (sessions w) s with
    | Some ss => (Return ss, w)
    | None => (Throw ExpiredSession, w)
    end.

Definition put_session (s : SessionRef) (ss : Session) : M unit :=
  fun w => (Return tt, with_sessions (replace_nth s ss (sessions w)) w).

(** [client.startSession()] *)
Definition startSession : M SessionRef :=
  fun w =>
    (Return (List.length (sessions w)),
     with_sessions (sessions w ++ [mkSession NoTransaction (store w) false]) w).

(** [session.startTransaction()] *)
Definition startTransaction (s : SessionRef) : M unit :=
  ss <- get_session s ;;
  match txn ss with
  | InProgress => throw (TransactionError "Transaction already in progress")
  | _ =>
      w <- get_world ;;
      put_session s (mkSession InProgress (store w) (hasEnded ss))
  end.

(** [session.commitTransaction()]: the session moves to [Committed]
    before the commit is sent; a failed commit leaves the store as it
    was. *)
Definition commitTransaction (s : SessionRef) : M unit :=
  ss <- get_session s ;;
  match txn ss with
  | NoTransaction => throw (TransactionError "No transaction started")
  | Aborted =>
      throw (TransactionError
               "Cannot call commitTransaction after calling abortTransaction")
  | Committed => ret tt
  | InProgress =>
      put_session s (mkSession Committed (working ss) (hasEnded ss)) ;;
      call CommitTransaction ;;
      w <- get_world ;;
      put_world (with_store (working ss) w)
  end.

(** [session.abortTransaction()]: errors of the abort command itself are
    ignored by the driver; only a wrong transaction state throws. *)
Definition abortTransaction (s : SessionRef) : M unit :=
  ss <- get_session s ;;
  match txn ss with
  | NoTransaction => throw (TransactionError "No transaction started")
  | Committed =>
      throw (TransactionError
               "Cannot call abortTransaction after calling commitTransaction")
  | Aborted => throw (TransactionError "Cannot call abortTransaction twice")
  | InProgress => put_session s (mkSession Aborted (working ss) (hasEnded ss))
  end.

(** [session.endSession()]: aborts an open transaction and marks the
    session as ended; never throws. *)
Definition endSession (s : SessionRef) : M unit :=
  fun w =>
    match nth_error (sessions w) s with
    | Some ss =>
        let t := match txn ss with InProgress => Aborted | t' => t' end in
        (Return tt,
         with_sessions (replace_nth s (mkSession t (working ss) true)
                                    (sessions w)) w)
    | None => (Return tt, w)
    end.

(** [session.withTransaction(fn)]: start, run the callback, commit; if
    the callback throws, abort and rethrow.  The driver's retry of errors
    labelled transient is not modelled: errors here carry no label. *)
Definition withTransaction {A} (s : SessionRef) (fn : M A) : M A :=
  startTransaction s ;;
  a <- try_catch fn
         (fun e =>
            ss <- get_session s ;;
            match txn ss with
            | InProgress => abortTransaction s ;; throw e
            | _ => throw e
            end) ;;
  ss <- get_session s ;;
  match txn ss with
  | InProgress => commitTransaction s ;; ret a
  | _ => ret a
  end.

End Mongo.
Export Mongo.

(* ===================================================================== *)
(** ** Collection methods *)
(* ===================================================================== *)

Module CollectionMethods.

(** The database an operation sees: the working copy of the session's
    open transaction, the committed store otherwise.  An operation on an
    ended session is refused. *)
Definition view (session : option SessionRef) : M Db :=
  match session with
  | None => w <- get_world ;; ret (store w)
  | Some s =>
      ss <- get_session s ;;
      if hasEnded ss then throw ExpiredSession
      else match txn ss with
           | InProgress => ret (working ss)
           | _ => w <- get_world ;; ret (store w)
           end
  end.

(** A write goes to the working copy of an open transaction, and straight
    to the store otherwise. *)
Definition write (session : option SessionRef) (f : Db -> Db) : M unit :=
  match session with
  | None => w <- get_world ;; put_world (with_store (f (store w)) w)
  | Some s =>
      ss <- get_session s ;;
      if hasEnded ss then throw ExpiredSession
      else match txn ss with
           | InProgress =>
               put_session s (mkSession InProgress (f (working ss)) (hasEnded ss))
           | _ => w <- get_world ;; put_world (with_store (f (store w)) w)
           end
  end.

Fixpoint remove_first {A} (p : A -> bool) (l : list A) : list A :=
  match l with
  | [] => []
  | a :: l' => if p a then l' else a :: remove_first p l'
  end.

Fixpoint update_first {A} (p : A -> bool) (f : A -> A) (l : list A) : list A :=
  match l with
  | [] => []
  | a :: l' => if p a then f a :: l' else a :: update_first p f l'
  end.

Section Methods.

Context {A : Type} (C : Collection A).

Definition selects (q : query) (a : A) : bool := matches [] q (coll_doc C a).

Definition findOne (q : query) (session : option SessionRef) : M (option A) :=
    call (Call (coll_name C) "findOne") ;;
    db <- view session ;;
    ret (find (selects q) (coll_get C db)).

(** [insertOne(doc, { session })]: the driver generates the [_id]; the
      result carries it as [insertedId]. *)
Definition insertOne (doc : ObjectId -> A) (session : option SessionRef)
    : M ObjectId :=
    id <- newObjectId ;;
    call (Call (coll_name C) "insertOne") ;;
    db <- view session ;;
    if existsb (fun a => Nat.eqb (coll_id C a) id) (coll_get C db)
    then throw (DuplicateKey id)
    else
      write session (fun db' => coll_set C (coll_get C db' ++ [doc id]) db') ;;
      ret id.

Definition deleteOne (q : query) (session : option SessionRef) : M unit :=
    call (Call (coll_name C) "deleteOne") ;;
    write session
          (fun db => coll_set C (remove_first (selects q) (coll_get C db)) db).

Definition deleteMany (q : query) (session : option SessionRef) : M unit :=
    call (Call (coll_name C) "deleteMany") ;;
    write session
          (fun db =>
             coll_set C (filter (fun a => negb (selects q a)) (coll_get C db)) db).

Definition countDocuments (q : query) : M nat :=
    call (Call (coll_name C) "countDocuments") ;;
    db <- view None ;;
    ret (List.length (filter (selects q) (coll_get C db))).

(** [findOneAndUpdate(q, { $set: ... }, { returnDocument: "after" })],
      read at [.value]: the updated document, or null when nothing
      matches. *)
Definition findOneAndUpdate (q : query) (set : A -> A) : M (option A) :=
    call (Call (coll_name C) "findOneAndUpdate") ;;
    db <- view None ;;
    match find (selects q) (coll_get C db) with
    | None => ret None
    | Some a =>
        write None
              (fun db' =>
                 coll_set C (update_first (selects q) set (coll_get C db')) db') ;;
        ret (Some (set a))
    end.

(** [aggregate(pipeline).toArray()] *)
Definition aggregate_toArray (pipeline : list stage) : M (list document) :=
    call (Call (coll_name C) "aggregate") ;;
    w <- get_world ;;
    ret (aggregate (documents (store w)) (coll_name C) pipeline).

(** [aggregate(pipeline).next()]: the first result, or null. *)
Definition aggregate_next (pipeline : list stage) : M (option document) :=
    rows <- aggregate_toArray pipeline ;;
    ret (hd_error rows).

End Methods.

(** [logger.error(msg, err)] and [console.error(msg, err)] *)
Definition log_error (msg : string) (subject : option ObjectId) (e : Error)
  : M unit :=
  fun w => (Return tt, with_logged (logged w ++ [mkLogEntry msg subject e]) w).

End CollectionMethods.
Export CollectionMethods.

(* ===================================================================== *)
(** ** The collaborating services *)
(* ===================================================================== *)

(** Modelled from the spec: [GroupMemberService] is not part of the
    sources.  Section 6: [addOne(groupId, uid, role, txScope)] adds one
    membership row, [removeAll(groupId, txScope)] removes every row of the
    group. *)
Module memberService.

Definition addOne (groupId uid : ObjectId) (role : GroupRole)
           (session : option SessionRef) : M unit :=
  insertOne GroupMemberC (fun id => mkGroupMember id groupId uid role) session ;;
  ret tt.

Definition removeAll (groupId : ObjectId) (session : option SessionRef) : M unit :=
  deleteMany GroupMemberC [Field "groupId" (CEq (VObjectId groupId))] session.

End memberService.

(** Modelled from the spec: [GroupInviteService] is not part of the
    sources.  Section 6: bulk delete of the invite codes of one group. *)
Module inviteService.

Definition deleteManyInviteCode (groupId : ObjectId)
           (session : option SessionRef) : M unit :=
  deleteMany GroupInviteC [Field "groupId" (CEq (VObjectId groupId))] session.

End inviteService.

(** Modelled from the spec: [GroupApplicationService] is not part of the
    sources.  Section 6: [append(groupId, appid|absent, txScope)] appends
    one record, also when [appid] is absent; [removeAll(groupId, txScope)]
    removes every record of the group.  The spec leaves open whether an
    absent [appid] is stored as null or omitted; it is written here the
    way the driver writes [undefined]. *)
Module groupApplicationService.

Definition append (groupId : ObjectId) (appid : option string)
           (session : option SessionRef) : M unit :=
  insertOne GroupApplicationC
            (fun id => mkGroupApplication id groupId (stored_optional appid))
            session ;;
  ret tt.

Definition removeAll (groupId : ObjectId) (session : option SessionRef) : M unit :=
  deleteMany GroupApplicationC [Field "groupId" (CEq (VObjectId groupId))] session.

End groupApplicationService.

(* ===================================================================== *)
(** ** GroupService *)
(* ===================================================================== *)

Module GroupService.

Definition by_id (groupId : ObjectId) : query :=
  [Field "_id" (CEq (VObjectId groupId))].

Definition findGroupByAppid (appid : string) : M (option Group) :=
  findOne GroupC [Field "appid" (CEq (VString appid))] None.

Definition findAll_pipeline (uid : ObjectId) : list stage :=
  [ Match [Field "uid" (CEq (VObjectId uid))];
    Lookup "Group" "groupId" "_id"
           [Match [Field "appid" (CEq VNull)]]
           "group";
    Unwind "group";
    Lookup "GroupMember" "groupId" "groupId"
           [Project [("_id", Exclude); ("role", Include); ("uid", Include)]]
           "members";
    Project [("_id", Compute (EField ["group"; "_id"]));
             ("name", Compute (EField ["group"; "name"]));
             ("createdAt", Compute (EField ["group"; "createdAt"]));
             ("updatedAt", Compute (EField ["group"; "updatedAt"]));
             ("members", Compute (EField ["members"]))] ].

Definition findAll (uid : ObjectId) : M (list document) :=
  try_catch
    (res <- aggregate_toArray GroupMemberC (findAll_pipeline uid) ;;
     ret res)
    (fun error =>
       log_error "Error fetching group members:" None error ;;
       throw (JsError "Failed to get group members")).

Definition countGroups (uid : ObjectId) : M nat :=
  count <- countDocuments GroupC
             [Field "createdBy" (CEq (VObjectId uid));
              Field "appid" (CExists false)] ;;
  ret count.

Definition findGroupsByAppidAndUid_pipeline (appid : string) (uid : ObjectId)
  : list stage :=
  [ Match [Field "appid" (CEq (VString appid))];
    Lookup "Group" "groupId" "_id" [] "group";
    Unwind "group";
    LookupLet "GroupMember" [("groupId", EField ["groupId"])]
              [Match [Expr (EAnd [EEq (EField ["groupId"]) (EVar "groupId");
                                  EEq (EField ["uid"]) (EConst (VObjectId uid))])]]
              "member";
    Unwind "member";
    Project [("_id", Compute (EField ["group"; "_id"]));
             ("name", Compute (EField ["group"; "name"]));
             ("createdAt", Compute (EField ["group"; "createdAt"]));
             ("updatedAt", Compute (EField ["group"; "updatedAt"]));
             ("role", Compute (EField ["member"; "role"]))] ].

Definition findGroupsByAppidAndUid (appid : string) (uid : ObjectId)
  : M (list document) :=
  try_catch
    (res <- aggregate_toArray GroupApplicationC
              (findGroupsByAppidAndUid_pipeline appid uid) ;;
     ret res)
    (fun error =>
       log_error "Error fetching groups by appid and uid:" None error ;;
       throw (JsError "Failed to get groups data")).

Definition update (groupId : ObjectId) (dto : PartialGroup) : M (option Group) :=
  now <- newDate ;;
  res <- findOneAndUpdate GroupC (by_id groupId)
           (set_fields (spread_updatedAt dto now)) ;;
  ret res.

Definition findOne (groupId : ObjectId) (session : option SessionRef)
  : M (option Group) :=
  res <- CollectionMethods.findOne GroupC (by_id groupId) session ;;
  ret res.

Definition findOneWithRole_pipeline (groupId uid : ObjectId) : list stage :=
  [ Match [Field "groupId" (CEq (VObjectId groupId));
           Field "uid" (CEq (VObjectId uid))];
    Lookup "Group" "groupId" "_id" [] "group";
    Unwind "group";
    Project [("_id", Compute (EField ["group"; "_id"]));
             ("name", Compute (EField ["group"; "name"]));
             ("createdAt", Compute (EField ["group"; "createdAt"]));
             ("updatedAt", Compute (EField ["group"; "updatedAt"]));
             ("role", Compute (EField ["role"]))] ].

Definition findOneWithRole (groupId uid : ObjectId) : M (option document) :=
  res <- aggregate_next GroupMemberC (findOneWithRole_pipeline groupId uid) ;;
  ret res.

(** The callback of [withTransaction] assigns the local [group]; here it
    returns it. *)
Definition create (name : string) (createdBy : ObjectId) (appid : option string)
  : M (option Group) :=
  session <- startSession ;;
  try_finally
    (try_catch
       (group <- withTransaction session
                   (createdAt <- newDate ;;
                    updatedAt <- newDate ;;
                    insertedId <- insertOne GroupC
                                    (fun id => mkGroup id name (stored_optional appid)
                                                       createdBy createdAt updatedAt)
                                    (Some session) ;;
                    memberService.addOne insertedId createdBy Owner (Some session) ;;
                    groupApplicationService.append insertedId appid (Some session) ;;
                    findOne insertedId (Some session)) ;;
        ret group)
       (fun err =>
          log_error "create group error" None err ;;
          throw err))
    (endSession session).

Definition delete (groupId : ObjectId) (session : option SessionRef)
  : M (option Group) :=
  sn <- match session with
        | None => s <- startSession ;; ret (s, true)
        | Some s => ret (s, false)
        end ;;
  let session := fst sn in
  let needEndSession := snd sn in
  group <- findOne groupId (Some session) ;;
  try_finally
    (try_catch
       (startTransaction session ;;
        deleteOne GroupC (by_id groupId) (Some session) ;;
        memberService.removeAll groupId (Some session) ;;
        inviteService.deleteManyInviteCode groupId (Some session) ;;
        groupApplicationService.removeAll groupId (Some session) ;;
        commitTransaction session ;;
        ret group)
       (fun err =>
          log_error "delete group ${groupId} error" (Some groupId) err ;;
          abortTransaction session ;;
          throw err))
    (if needEndSession then endSession session else ret tt).

End GroupService.


(* ===================================================================== *)
(** ** Typed reading of the query results *)
(* ===================================================================== *)

Module Views.

(** A plain group: [appid] absent or null. *)
Definition is_plain (g : Group) : bool :=
  match g_appid g with
  | Present _ => false
  | _ => true
  end.

Definition has_appid (appid : string) (o : optional string) : bool :=
  match o with
  | Present s => String.eqb appid s
  | _ => false
  end.

(** The projected group columns, followed by the query's own column. *)
Definition group_view (g : Group) (extra : document) : document :=
  [("_id", VObjectId (g_id g)); ("name", VString (g_name g));
   ("createdAt", VDate (g_createdAt g)); ("updatedAt", VDate (g_updatedAt g))]
    ++ extra.

(** A membership row projected with [{ _id: 0, role: 1, uid: 1 }]; the
    fields come out in stored order. *)
Definition member_view (m : GroupMember) : value :=
  VDocument [("uid", VObjectId (m_uid m)); ("role", VString (m_role m))].

Definition members_of (db : Db) (groupId : ObjectId) : list GroupMember :=
  filter (fun m => Nat.eqb groupId (m_groupId m)) (GroupMembers db).

Definition members_view (db : Db) (g : Group) : document :=
  group_view g [("members", VArray (map member_view (members_of db (g_id g))))].

Definition role_view (g : Group) (m : GroupMember) : document :=
  group_view g [("role", VString (m_role m))].

(** The id column of a result row. *)
Definition row_id (row : document) : option value := get "_id" row.

(** The join computed by "list my groups". *)
Definition my_groups (db : Db) (uid : ObjectId) : list document :=
  flat_map
    (fun m =>
       map (members_view db)
           (filter (fun g => Nat.eqb (m_groupId m) (g_id g) && is_plain g)
                   (Groups db)))
    (filter (fun m => Nat.eqb uid (m_uid m)) (GroupMembers db)).

(** The join computed by "groups of an application, for one user". *)
Definition app_groups (db : Db) (appid : string) (uid : ObjectId)
  : list document :=
  flat_map
    (fun a =>
       flat_map
         (fun g =>
            map (role_view g)
                (filter (fun m => Nat.eqb (m_groupId m) (a_groupId a)
                                  && Nat.eqb (m_uid m) uid)
                        (GroupMembers db)))
         (filter (fun g => Nat.eqb (a_groupId a) (g_id g)) (Groups db)))
    (filter (fun a => has_appid appid (a_appid a)) (GroupApplications db)).

(** The join computed by "one group with the caller's role". *)
Definition groups_with_role (db : Db) (groupId uid : ObjectId) : list document :=
  flat_map
    (fun m =>
       map (fun g => role_view g m)
           (filter (fun g => Nat.eqb (m_groupId m) (g_id g)) (Groups db)))
    (filter (fun m => Nat.eqb groupId (m_groupId m) && Nat.eqb uid (m_uid m))
            (GroupMembers db)).

(** A group counted by [countGroups]: created by [uid], [appid] missing. *)
Definition counted (uid : ObjectId) (g : Group) : bool :=
  Nat.eqb uid (g_createdBy g) &&
  match g_appid g with
  | Missing => true
  | _ => false
  end.

(** The rows of each collection that are keyed to one group id. *)
Definition groups_by_id (db : Db) (groupId : ObjectId) : list Group :=
  filter (fun g => Nat.eqb groupId (g_id g)) (Groups db).

Definition invites_of (db : Db) (groupId : ObjectId) : list GroupInvite :=
  filter (fun i => Nat.eqb groupId (i_groupId i)) (GroupInvites db).

Definition applications_of (db : Db) (groupId : ObjectId)
  : list GroupApplication :=
  filter (fun a => Nat.eqb groupId (a_groupId a)) (GroupApplications db).

(** No collection holds a row keyed to [groupId]. *)
Definition unreferenced (db : Db) (groupId : ObjectId) : bool :=
  match groups_by_id db groupId, members_of db groupId,
        invites_of db groupId, applications_of db groupId with
  | [], [], [], [] => true
  | _, _, _, _ => false
  end.

End Views.
Export Views.

(* ===================================================================== *)
(** ** Conditions on the environment of a call *)
(* ===================================================================== *)

Module Conditions.

(** The error of the first call, in program order, that the fault plan
    makes fail. *)
Fixpoint first_fault (plan : Op -> option Error) (ops : list Op)
  : option Error :=
  match ops with
  | [] => None
  | op :: rest =>
      match plan op with
      | Some e => Some e
      | None => first_fault plan rest
      end
  end.

(** The four steps of [create], in order: insert the group, add the owner
    membership, append the application record, re-read the group. *)
Definition create_steps : list Op :=
  [Call "Group" "insertOne"; Call "GroupMember" "insertOne";
   Call "GroupApplication" "insertOne"; Call "Group" "findOne"].

(** The four deletion steps of [delete], in order. *)
Definition delete_steps : list Op :=
  [Call "Group" "deleteOne"; Call "GroupMember" "deleteMany";
   Call "GroupInvite" "deleteMany"; Call "GroupApplication" "deleteMany"].

(** Every ObjectId stored in the database was generated before [n]. *)
Definition generated_before (n : ObjectId) (db : Db) : bool :=
  forallb (fun g => Nat.ltb (g_id g) n) (Groups db)
  && forallb (fun m => Nat.ltb (m_id m) n && Nat.ltb (m_groupId m) n)
             (GroupMembers db)
  && forallb (fun i => Nat.ltb (i_id i) n && Nat.ltb (i_groupId i) n)
             (GroupInvites db)
  && forallb (fun a => Nat.ltb (a_id a) n && Nat.ltb (a_groupId a) n)
             (GroupApplications db).

(** The driver never generates an ObjectId that is already stored. *)
Definition generator_ahead (w : World) : bool :=
  generated_before (nextObjectId w) (store w).

(** A session argument that [delete] can run its own transaction on:
    none, or a live session with no transaction in progress. *)
Definition idle (w : World) (session : option SessionRef) : bool :=
  match session with
  | None => true
  | Some s =>
      match nth_error (sessions w) s with
      | Some ss =>
          negb (hasEnded ss)
          && match txn ss with InProgress => false | _ => true end
      | None => false
      end
  end.

(** The session a call of [delete] works on: the one passed in, or the
    one it starts. *)
Definition session_of (w : World) (session : option SessionRef) : SessionRef :=
  match session with
  | Some s => s
  | None => List.length (sessions w)
  end.

Definition ended (w : World) (s : SessionRef) : option bool :=
  match nth_error (sessions w) s with
  | Some ss => Some (hasEnded ss)
  | None => None
  end.

Definition txn_state (w : World) (s : SessionRef) : option TxnState :=
  match nth_error (sessions w) s with
  | Some ss => Some (txn ss)
  | None => None
  end.

(** The group document that [create] inserts, and the database after the
    three inserts of a [create] that commits. *)
Definition created_group (w : World) (name : string) (createdBy : ObjectId)
           (appid : option string) : Group :=
  mkGroup (nextObjectId w) name (stored_optional appid) createdBy
          (clock w) (clock w).

Definition created_db (w : World) (name : string) (createdBy : ObjectId)
           (appid : option string) : Db :=
  mkDb (Groups (store w) ++ [created_group w name createdBy appid])
       (GroupMembers (store w)
          ++ [mkGroupMember (S (nextObjectId w)) (nextObjectId w) createdBy Owner])
       (GroupInvites (store w))
       (GroupApplications (store w)
          ++ [mkGroupApplication (S (S (nextObjectId w))) (nextObjectId w)
                                 (stored_optional appid)]).

(** The database after the four deletion steps of [delete]. *)
Definition deleted_db (db : Db) (groupId : ObjectId) : Db :=
  mkDb (remove_first (fun g => Nat.eqb groupId (g_id g)) (Groups db))
       (filter (fun m => negb (Nat.eqb groupId (m_groupId m))) (GroupMembers db))
       (filter (fun i => negb (Nat.eqb groupId (i_groupId i))) (GroupInvites db))
       (filter (fun a => negb (Nat.eqb groupId (a_groupId a)))
               (GroupApplications db)).

(** The sessions of the client when [delete] has left its [try]: its own
    session is appended and ended, a borrowed one is updated in place and
    left open. *)
Definition close_session (w : World) (session : option SessionRef)
           (t : TxnState) (d : Db) : list Session :=
  match session with
  | None => sessions w ++ [mkSession t d true]
  | Some s => replace_nth s (mkSession t d false) (sessions w)
  end.

Definition delete_log (groupId : ObjectId) (e : Error) : LogEntry :=
  mkLogEntry "delete group ${groupId} error" (Some groupId) e.

Definition op_eqb (a b : Op) : bool :=
  match a, b with
  | Call c m, Call c' m' => String.eqb c c' && String.eqb m m'
  | CommitTransaction, CommitTransaction => true
  | _, _ => false
  end.

(** Fault plans: nothing fails, or exactly one call fails. *)
Definition no_faults : Op -> option Error := fun _ => None.

Definition fail_at (op : Op) (e : Error) : Op -> option Error :=
  fun op' => if op_eqb op op' then Some e else None.

End Conditions.
Export Conditions.

(* ===================================================================== *)
(** ** Sample worlds *)
(* ===================================================================== *)

Module Fixtures.

(** One plain group with two members, one application-scoped group, one
    legacy group without the [appid] key, and a membership row whose
    group is gone. *)
Definition db0 : Db :=
  mkDb [mkGroup 1 "plain" Null 10 5 5;
        mkGroup 2 "scoped" (Present "app-1") 10 5 5;
        mkGroup 3 "legacy" Missing 10 5 5]
       [mkGroupMember 100 1 10 Owner; mkGroupMember 101 2 10 Owner;
        mkGroupMember 102 1 11 "admin"; mkGroupMember 103 9 10 "admin";
        mkGroupMember 104 3 10 Owner]
       [mkGroupInvite 300 1 "code"]
       [mkGroupApplication 200 1 Null;
        mkGroupApplication 201 2 (Present "app-1")].

Definition w0 : World := mkWorld db0 [] 7 1000 [] no_faults.

Definition w_borrowed : World :=
  mkWorld db0 [mkSession NoTransaction db0 false] 7 1000 [] no_faults.

Definition w_preread_fails : World :=
  mkWorld db0 [] 7 1000 []
          (fail_at (Call "Group" "findOne") (StorageError 1)).

End Fixtures.
Export Fixtures.

(* ===================================================================== *)
(** ** Further sample worlds *)
(* ===================================================================== *)

Module Scenarios.

(** Every call to the storage engine fails. *)
Definition w_unreachable : World :=
  mkWorld db0 [] 7 1000 [] (fun _ => Some (StorageError 3)).

(** The caller's session has a transaction in progress. *)
Definition w_in_transaction : World :=
  mkWorld db0 [mkSession InProgress db0 false] 7 1000 [] no_faults.


(** Only the commit fails. *)
Definition w_commit_fails : World :=
  mkWorld db0 [] 7 1000 [] (fail_at CommitTransaction (StorageError 4)).

End Scenarios.
Export Scenarios.

(* ===================================================================== *)
(** ** List facts *)
(* ===================================================================== *)

Lemma filter_map_swap {A B} (f : A -> B) (p : B -> bool) (l : list A) :
  filter p (map f l) = map f (filter (fun a => p (f a)) l).
Proof.
  induction l as [|a l IH]; simpl; [reflexivity|].
  destruct (p (f a)); simpl; now rewrite IH.
Qed.

Lemma flat_map_map {A B C} (f : A -> B) (g : B -> list C) (l : list A) :
  flat_map g (map f l) = flat_map (fun a => g (f a)) l.
Proof. induction l; simpl; [reflexivity|]. now rewrite IHl. Qed.

Lemma flat_map_singleton {A B} (f : A -> B) (l : list A) :
  flat_map (fun a => [f a]) l = map f l.
Proof. induction l; simpl; [reflexivity|]. now rewrite IHl. Qed.

Lemma flat_map_filter {A B} (p : A -> bool) (f : A -> list B) (l : list A) :
  flat_map f (filter p l) = flat_map (fun a => if p a then f a else []) l.
Proof.
  induction l as [|a l IH]; simpl; [reflexivity|].
  destruct (p a); simpl; now rewrite IH.
Qed.

Lemma map_flat_map {A B C} (f : B -> C) (g : A -> list B) (l : list A) :
  map f (flat_map g l) = flat_map (fun a => map f (g a)) l.
Proof.
  induction l as [|a l IH]; simpl; [reflexivity|].
  now rewrite map_app, IH.
Qed.

Section Stages.
Variable collection : string -> list document.

Lemma run_stage_app vars st l1 l2 :
    run_stage collection vars st (l1 ++ l2)
    = run_stage collection vars st l1 ++ run_stage collection vars st l2.
  Proof.
    destruct st; simpl.
    - apply filter_app.
    - apply map_app.
    - apply map_app.
    - apply flat_map_app.
    - apply map_app.
  Qed.

Lemma run_pipeline_app vars p : forall l1 l2,
    run_pipeline collection vars p (l1 ++ l2)
    = run_pipeline collection vars p l1 ++ run_pipeline collection vars p l2.
  Proof.
    unfold run_pipeline.
    induction p as [|st p IH]; intros l1 l2; simpl; [reflexivity|].
    now rewrite run_stage_app, IH.
  Qed.

Lemma run_pipeline_nil vars p : run_pipeline collection vars p [] = [].
  Proof.
    unfold run_pipeline. induction p as [|st p IH]; simpl; [reflexivity|].
    destruct st; simpl; exact IH.
  Qed.

(** Every stage works document by document, so a pipeline can be run on
    one input document at a time. *)
Lemma run_pipeline_flat_map vars p l :
    run_pipeline collection vars p l
    = flat_map (fun d => run_pipeline collection vars p [d]) l.
  Proof.
    induction l as [|d l IH]; simpl.
    - apply run_pipeline_nil.
    - change (d :: l) with ([d] ++ l). now rewrite run_pipeline_app, IH.
  Qed.
End Stages.

Lemma selects_counted uid g :
  selects GroupC [Field "createdBy" (CEq (VObjectId uid)); Field "appid" (CExists false)] g
  = counted uid g.
Proof.
  unfold selects, counted. destruct g as [i n a cb ca ua]; destruct a; cbn.
  all: try rewrite andb_true_r; try rewrite andb_false_r; reflexivity.
Qed.


Lemma filter_filter {A} (p q : A -> bool) (l : list A) :
  filter q (filter p l) = filter (fun a => p a && q a) l.
Proof.
  induction l as [|a l IH]; simpl; [reflexivity|].
  destruct (p a); simpl; [destruct (q a)|]; now rewrite IH.
Qed.

Lemma matches_plain g :
  matches [] [Field "appid" (CEq VNull)] (Group_doc g) = is_plain g.
Proof. destruct g as [i n a cb ca ua]; destruct a; reflexivity. Qed.

Lemma project_member m :
  project [] [("_id", Exclude); ("role", Include); ("uid", Include)]
          (GroupMember_doc m)
  = [("uid", VObjectId (m_uid m)); ("role", VString (m_role m))].
Proof. reflexivity. Qed.

Lemma findAll_single db uid m :
  run_pipeline (documents db) [] (GroupService.findAll_pipeline uid)
               [GroupMember_doc m]
  = if Nat.eqb uid (m_uid m)
    then map (members_view db)
             (filter (fun g => Nat.eqb (m_groupId m) (g_id g) && is_plain g)
                     (Groups db))
    else [].
Proof.
  unfold GroupService.findAll_pipeline, run_pipeline. cbn.
  rewrite andb_true_r. destruct (Nat.eqb uid (m_uid m)); [|reflexivity].
  cbn. rewrite app_nil_r.
  rewrite !filter_map_swap, filter_filter, !map_map.
  erewrite filter_ext.
  2:{ intros g. rewrite matches_plain. reflexivity. }
  apply map_ext_in. intros g Hg. apply filter_In in Hg. destruct Hg as [_ Hg].
  apply andb_prop in Hg. destruct Hg as [Hid _]. apply Nat.eqb_eq in Hid.
  destruct g as [i n a cb ca ua]; simpl in Hid; subst i.
  unfold members_view, members_of, group_view.
  destruct a; cbn; rewrite !filter_map_swap, !map_map; reflexivity.
Qed.

(** The pipeline of [findAll] computes the typed join [my_groups]. *)
Lemma findAll_rows db uid :
  aggregate (documents db) "GroupMember" (GroupService.findAll_pipeline uid)
  = my_groups db uid.
Proof.
  unfold aggregate. rewrite run_pipeline_flat_map.
  change (documents db "GroupMember") with (map GroupMember_doc (GroupMembers db)).
  rewrite flat_map_map. unfold my_groups. rewrite flat_map_filter.
  apply flat_map_ext. intros m. apply findAll_single.
Qed.

Lemma has_appid_matches appid a :
  matches [] [Field "appid" (CEq (VString appid))] (GroupApplication_doc a)
  = has_appid appid (a_appid a).
Proof.
  destruct a as [i g o]; destruct o; cbn; try reflexivity.
  apply andb_true_r.
Qed.

Lemma findGroupsByAppidAndUid_single db appid uid a :
  run_pipeline (documents db) []
               (GroupService.findGroupsByAppidAndUid_pipeline appid uid)
               [GroupApplication_doc a]
  = if has_appid appid (a_appid a)
    then flat_map
           (fun g =>
              map (role_view g)
                  (filter (fun m => Nat.eqb (m_groupId m) (a_groupId a)
                                    && Nat.eqb (m_uid m) uid)
                          (GroupMembers db)))
           (filter (fun g => Nat.eqb (a_groupId a) (g_id g)) (Groups db))
    else [].
Proof.
  unfold GroupService.findGroupsByAppidAndUid_pipeline, run_pipeline.
  destruct a as [i gid o]; destruct o as [| |s]; cbn; try reflexivity.
  rewrite andb_true_r.
  destruct (String.eqb appid s); [|reflexivity].
  cbn. rewrite app_nil_r.
  rewrite filter_map_swap, !map_map, flat_map_map, map_flat_map.
  apply flat_map_ext. intros g.
  cbn. rewrite filter_map_swap, !map_map.
  rewrite (filter_ext _ (fun m => Nat.eqb (m_groupId m) gid
                                  && Nat.eqb (m_uid m) uid)).
  2:{ intros m. cbn.
      destruct (Nat.eqb (m_groupId m) gid), (Nat.eqb (m_uid m) uid);
        reflexivity. }
  apply map_ext. intros m.
  destruct g as [gi n o cb ca ua]; destruct o; reflexivity.
Qed.

(** The pipeline of [findGroupsByAppidAndUid] computes [app_groups]. *)
Lemma findGroupsByAppidAndUid_rows db appid uid :
  aggregate (documents db) "GroupApplication"
            (GroupService.findGroupsByAppidAndUid_pipeline appid uid)
  = app_groups db appid uid.
Proof.
  unfold aggregate. rewrite run_pipeline_flat_map.
  change (documents db "GroupApplication")
    with (map GroupApplication_doc (GroupApplications db)).
  rewrite flat_map_map. unfold app_groups. rewrite flat_map_filter.
  apply flat_map_ext. intros a. apply findGroupsByAppidAndUid_single.
Qed.

Lemma findOneWithRole_single db groupId uid m :
  run_pipeline (documents db) []
               (GroupService.findOneWithRole_pipeline groupId uid)
               [GroupMember_doc m]
  = if Nat.eqb groupId (m_groupId m) && Nat.eqb uid (m_uid m)
    then map (fun g => role_view g m)
             (filter (fun g => Nat.eqb (m_groupId m) (g_id g)) (Groups db))
    else [].
Proof.
  unfold GroupService.findOneWithRole_pipeline, run_pipeline. cbn.
  rewrite andb_true_r.
  destruct (Nat.eqb groupId (m_groupId m) && Nat.eqb uid (m_uid m));
    [|reflexivity].
  cbn. rewrite app_nil_r, filter_map_swap, !map_map.
  apply map_ext. intros g.
  destruct g as [gi n o cb ca ua]; destruct o; reflexivity.
Qed.

(** The pipeline of [findOneWithRole] computes [groups_with_role]. *)
Lemma findOneWithRole_rows db groupId uid :
  aggregate (documents db) "GroupMember"
            (GroupService.findOneWithRole_pipeline groupId uid)
  = groups_with_role db groupId uid.
Proof.
  unfold aggregate. rewrite run_pipeline_flat_map.
  change (documents db "GroupMember") with (map GroupMember_doc (GroupMembers db)).
  rewrite flat_map_map. unfold groups_with_role. rewrite flat_map_filter.
  apply flat_map_ext. intros m. apply findOneWithRole_single.
Qed.

(** ** Uniqueness helpers *)

Lemma NoDup_map_filter {A K H} (k : A -> K) (h : A -> H) (p : A -> bool) l :
  NoDup (map k l) ->
  (forall x y, In x l -> In y l -> p x = true -> p y = true ->
               h x = h y -> k x = k y) ->
  NoDup (map h (filter p l)).
Proof.
  induction l as [|a l IH]; simpl; intros Hnd Hinj; [constructor|].
  inversion Hnd as [|? ? Hnotin Hnd']; subst.
  assert (IH' : NoDup (map h (filter p l))).
  { apply IH; [assumption|]. intros x y Hx Hy. apply Hinj; now right. }
  destruct (p a) eqn:Hpa; [|assumption].
  simpl. constructor; [|assumption].
  intros Hin. apply in_map_iff in Hin. destruct Hin as [y [Hy Hyin]].
  apply filter_In in Hyin. destruct Hyin as [Hyin Hpy].
  apply Hnotin. apply in_map_iff. exists y. split; [|assumption].
  apply Hinj; auto.
Qed.

Lemma NoDup_flat_map_tagged {A B} (tag : A -> B) (f : A -> list B) l :
  NoDup (map tag l) ->
  (forall a, In a l -> NoDup (f a)) ->
  (forall a b, In a l -> In b (f a) -> b = tag a) ->
  NoDup (flat_map f l).
Proof.
  induction l as [|a l IH]; simpl; intros Hnd Hf Htag; [constructor|].
  inversion Hnd as [|? ? Hnotin Hnd']; subst.
  apply NoDup_app.
  - apply Hf. now left.
  - apply IH; auto.
  - intros b Hb Hb'. apply in_flat_map in Hb'. destruct Hb' as [a' [Ha' Hb']].
    apply Hnotin. apply in_map_iff. exists a'. split; [|assumption].
    rewrite <- (Htag a b), <- (Htag a' b); auto.
Qed.

Lemma is_plain_iff g :
  is_plain g = true <-> g_appid g = Missing \/ g_appid g = Null.
Proof.
  unfold is_plain. destruct (g_appid g); split; intros H; auto;
    try discriminate; destruct H; discriminate.
Qed.

Lemma has_appid_iff appid o : has_appid appid o = true <-> o = Present appid.
Proof.
  destruct o; simpl; split; intros H; try discriminate.
  - apply String.eqb_eq in H. now subst.
  - inversion H. apply String.eqb_refl.
Qed.

Lemma my_groups_In db uid row :
  In row (my_groups db uid) <->
  exists g, In g (Groups db)
            /\ (g_appid g = Missing \/ g_appid g = Null)
            /\ (exists m, In m (GroupMembers db)
                          /\ m_groupId m = g_id g /\ m_uid m = uid)
            /\ row = members_view db g.
Proof.
  unfold my_groups. rewrite in_flat_map. split.
  - intros [m [Hm Hrow]]. apply filter_In in Hm. destruct Hm as [Hm Hu].
    apply in_map_iff in Hrow. destruct Hrow as [g [Hrow Hg]].
    apply filter_In in Hg. destruct Hg as [Hg Hp].
    apply andb_prop in Hp. destruct Hp as [Hid Hp].
    apply Nat.eqb_eq in Hu, Hid. apply is_plain_iff in Hp.
    exists g. repeat split; auto. exists m. auto.
  - intros [g [Hg [Hp [[m [Hm [Hid Hu]]] Hrow]]]].
    exists m. split.
    + apply filter_In. split; [assumption|]. now apply Nat.eqb_eq.
    + apply in_map_iff. exists g. split; [now symmetry|].
      apply filter_In. split; [assumption|].
      apply andb_true_intro. split; [now apply Nat.eqb_eq|].
      now apply is_plain_iff.
Qed.

Lemma my_groups_NoDup db uid :
  NoDup (map g_id (Groups db)) ->
  NoDup (map (fun m => (m_groupId m, m_uid m)) (GroupMembers db)) ->
  NoDup (map row_id (my_groups db uid)).
Proof.
  intros Hg Hm. unfold my_groups. rewrite map_flat_map.
  apply NoDup_flat_map_tagged
    with (tag := fun m => Some (VObjectId (m_groupId m))).
  - apply NoDup_map_filter with (k := fun m => (m_groupId m, m_uid m));
      [assumption|].
    intros x y _ _ Hx Hy Heq. apply Nat.eqb_eq in Hx, Hy.
    inversion Heq. congruence.
  - intros m _. rewrite map_map.
    apply NoDup_map_filter with (k := g_id); [assumption|].
    intros x y _ _ _ _ Heq. unfold row_id, members_view in Heq. simpl in Heq.
    congruence.
  - intros m b _ Hb. rewrite map_map in Hb. apply in_map_iff in Hb.
    destruct Hb as [g [Hb Hgin]]. apply filter_In in Hgin.
    destruct Hgin as [_ Hp]. apply andb_prop in Hp. destruct Hp as [Hid _].
    apply Nat.eqb_eq in Hid. subst b. unfold row_id, members_view. simpl.
    now rewrite Hid.
Qed.

Lemma members_of_In db groupId m :
  In m (members_of db groupId) <->
  In m (GroupMembers db) /\ m_groupId m = groupId.
Proof.
  unfold members_of. rewrite filter_In, Nat.eqb_eq. intuition.
Qed.

Lemma nth_error_snoc {A} (l : list A) x : nth_error (l ++ [x]) (List.length l) = Some x.
Proof. induction l; simpl; auto. Qed.

Lemma replace_nth_snoc {A} (l : list A) x y :
  replace_nth (List.length l) y (l ++ [x]) = l ++ [y].
Proof. induction l; simpl; [reflexivity|]. now rewrite IHl. Qed.

(* ===================================================================== *)
(** ** Running the service code *)
(* ===================================================================== *)

(** Unfolds the state-passing combinators and the driver calls, then
    reduces the record projections; a call stays stuck on the fault plan
    until the proof decides whether it fails. *)
Ltac run_js1 :=
  cbv beta iota zeta
      delta [bind ret throw get_world put_world try_catch try_finally call
             newDate newObjectId log_error
             aggregate_toArray aggregate_next countDocuments findOneAndUpdate
             CollectionMethods.findOne insertOne deleteOne deleteMany
             view write
             startSession startTransaction commitTransaction abortTransaction
             endSession withTransaction get_session put_session
             memberService.addOne memberService.removeAll
             inviteService.deleteManyInviteCode
             groupApplicationService.append groupApplicationService.removeAll
             GroupService.findOne
             with_store with_sessions with_nextObjectId with_logged
             coll_name coll_get coll_set coll_id
             GroupC GroupMemberC GroupInviteC GroupApplicationC];
  cbn [store sessions clock nextObjectId logged faults
       txn working hasEnded fst snd
       Groups GroupMembers GroupInvites GroupApplications];
  rewrite ?nth_error_snoc, ?replace_nth_snoc;
  fold GroupC GroupMemberC GroupInviteC GroupApplicationC.

Ltac run_js := repeat (progress run_js1).

Lemma findAll_run w uid :
  faults w (Call "GroupMember" "aggregate") = None ->
  GroupService.findAll uid w = (Return (my_groups (store w) uid), w).
Proof.
  intros Hf.
  unfold GroupService.findAll. run_js. rewrite Hf. run_js.
  now rewrite findAll_rows.
Qed.

(** Claim C3.  With group ids and (groupId, uid) membership keys unique, as
    the data model has them, [findAll uid] returns rows with pairwise
    distinct group ids, and a row is returned exactly for each group that
    has a membership row of [uid] and whose [appid] is absent or null;
    membership rows whose group is missing or application-scoped give no
    row.  Each row carries the group's id, name, createdAt and updatedAt,
    and [members] holds the (uid, role) pair of every membership row of
    that group, whoever the member is. *)
Theorem findAll_one_row_per_plain_group (w : World) (uid : ObjectId) :
  faults w (Call "GroupMember" "aggregate") = None ->
  NoDup (map g_id (Groups (store w))) ->
  NoDup (map (fun m => (m_groupId m, m_uid m)) (GroupMembers (store w))) ->
  exists rows,
    GroupService.findAll uid w = (Return rows, w)
    /\ NoDup (map row_id rows)
    /\ (forall row,
           In row rows <->
           exists g,
             In g (Groups (store w))
             /\ (g_appid g = Missing \/ g_appid g = Null)
             /\ (exists m, In m (GroupMembers (store w))
                           /\ m_groupId m = g_id g /\ m_uid m = uid)
             /\ row = group_view g
                        [("members",
                          VArray (map member_view
                                      (members_of (store w) (g_id g))))])
    /\ (forall g m,
           In m (members_of (store w) (g_id g)) <->
           In m (GroupMembers (store w)) /\ m_groupId m = g_id g).
Proof.
  intros Hf Hg Hm. exists (my_groups (store w) uid).
  split; [now apply findAll_run|].
  split; [now apply my_groups_NoDup|].
  split; [apply my_groups_In|].
  intros g m. apply members_of_In.
Qed.

(** ** findGroupsByAppidAndUid *)

Lemma app_groups_In db appid uid row :
  In row (app_groups db appid uid) <->
  exists a g m,
    In a (GroupApplications db) /\ a_appid a = Present appid
    /\ In g (Groups db) /\ g_id g = a_groupId a
    /\ In m (GroupMembers db) /\ m_groupId m = g_id g /\ m_uid m = uid
    /\ row = role_view g m.
Proof.
  unfold app_groups. rewrite in_flat_map. split.
  - intros [a [Ha Hrow]]. apply filter_In in Ha. destruct Ha as [Ha Happ].
    apply has_appid_iff in Happ.
    apply in_flat_map in Hrow. destruct Hrow as [g [Hg Hrow]].
    apply filter_In in Hg. destruct Hg as [Hg Hid]. apply Nat.eqb_eq in Hid.
    apply in_map_iff in Hrow. destruct Hrow as [m [Hrow Hm]].
    apply filter_In in Hm. destruct Hm as [Hm Hp].
    apply andb_prop in Hp. destruct Hp as [Hmg Hmu].
    apply Nat.eqb_eq in Hmg, Hmu.
    exists a, g, m. repeat split; auto; congruence.
  - intros [a [g [m [Ha [Happ [Hg [Hid [Hm [Hmg [Hmu Hrow]]]]]]]]]].
    exists a. split.
    + apply filter_In. split; [assumption|]. now apply has_appid_iff.
    + apply in_flat_map. exists g. split.
      * apply filter_In. split; [assumption|]. now apply Nat.eqb_eq.
      * apply in_map_iff. exists m. split; [now symmetry|].
        apply filter_In. split; [assumption|].
        apply andb_true_intro. split; apply Nat.eqb_eq; congruence.
Qed.

Lemma app_groups_NoDup db appid uid :
  NoDup (map g_id (Groups db)) ->
  NoDup (map (fun m => (m_groupId m, m_uid m)) (GroupMembers db)) ->
  NoDup (map (fun a => (a_groupId a, a_appid a)) (GroupApplications db)) ->
  NoDup (map row_id (app_groups db appid uid)).
Proof.
  intros Hg Hm Ha. unfold app_groups. rewrite map_flat_map.
  apply NoDup_flat_map_tagged
    with (tag := fun a => Some (VObjectId (a_groupId a))).
  - apply NoDup_map_filter with (k := fun a => (a_groupId a, a_appid a));
      [assumption|].
    intros x y _ _ Hx Hy Heq. apply has_appid_iff in Hx, Hy.
    inversion Heq. congruence.
  - intros a _. rewrite map_flat_map.
    apply NoDup_flat_map_tagged
      with (tag := fun g => Some (VObjectId (g_id g))).
    + apply NoDup_map_filter with (k := g_id); [assumption|].
      intros x y _ _ _ _ Heq. congruence.
    + intros g _. rewrite map_map.
      apply NoDup_map_filter with (k := fun m => (m_groupId m, m_uid m));
        [assumption|].
      intros x y _ _ Hx Hy _.
      apply andb_prop in Hx, Hy. destruct Hx as [Hx1 Hx2], Hy as [Hy1 Hy2].
      apply Nat.eqb_eq in Hx1, Hx2, Hy1, Hy2. congruence.
    + intros g b _ Hb. rewrite map_map in Hb. apply in_map_iff in Hb.
      destruct Hb as [m [Hb _]]. now subst b.
  - intros a b _ Hb. rewrite map_flat_map in Hb. apply in_flat_map in Hb.
    destruct Hb as [g [Hgin Hb]]. apply filter_In in Hgin.
    destruct Hgin as [_ Hid]. apply Nat.eqb_eq in Hid.
    rewrite map_map in Hb. apply in_map_iff in Hb.
    destruct Hb as [m [Hb _]]. subst b. unfold row_id, role_view. simpl.
    now rewrite Hid.
Qed.

Lemma findGroupsByAppidAndUid_run w appid uid :
  faults w (Call "GroupApplication" "aggregate") = None ->
  GroupService.findGroupsByAppidAndUid appid uid w
  = (Return (app_groups (store w) appid uid), w).
Proof.
  intros Hf. unfold GroupService.findGroupsByAppidAndUid. run_js.
  rewrite Hf. run_js. now rewrite findGroupsByAppidAndUid_rows.
Qed.

(** Claim C4.  With the keys of the three collections unique,
    [findGroupsByAppidAndUid appid uid] returns rows with pairwise
    distinct group ids, one exactly for each group that has an application
    record with that [appid], a group document, and a membership row of
    that group for [uid]; the role of the row is the role of that
    membership row.  A group in which [uid] has no membership row never
    appears, whatever other users belong to it. *)
Theorem findGroupsByAppidAndUid_only_own_membership
        (w : World) (appid : string) (uid : ObjectId) :
  faults w (Call "GroupApplication" "aggregate") = None ->
  NoDup (map g_id (Groups (store w))) ->
  NoDup (map (fun m => (m_groupId m, m_uid m)) (GroupMembers (store w))) ->
  NoDup (map (fun a => (a_groupId a, a_appid a))
             (GroupApplications (store w))) ->
  exists rows,
    GroupService.findGroupsByAppidAndUid appid uid w = (Return rows, w)
    /\ NoDup (map row_id rows)
    /\ (forall row,
           In row rows <->
           exists a g m,
             In a (GroupApplications (store w)) /\ a_appid a = Present appid
             /\ In g (Groups (store w)) /\ g_id g = a_groupId a
             /\ In m (GroupMembers (store w))
             /\ m_groupId m = g_id g /\ m_uid m = uid
             /\ row = group_view g [("role", VString (m_role m))])
    /\ (forall g,
           (forall m, In m (GroupMembers (store w)) ->
                      m_groupId m = g_id g -> m_uid m <> uid) ->
           ~ In (Some (VObjectId (g_id g))) (map row_id rows)).
Proof.
  intros Hf Hg Hm Ha. exists (app_groups (store w) appid uid).
  split; [now apply findGroupsByAppidAndUid_run|].
  split; [now apply app_groups_NoDup|].
  split; [apply app_groups_In|].
  intros g Hnone Hin. apply in_map_iff in Hin. destruct Hin as [row [Hid Hrow]].
  apply app_groups_In in Hrow.
  destruct Hrow as [a [g' [m [_ [_ [_ [_ [Hmin [Hmg [Hmu Hrow]]]]]]]]]].
  subst row. unfold row_id, role_view in Hid. simpl in Hid.
  inversion Hid as [Hgid]. apply (Hnone m Hmin); congruence.
Qed.

(** ** findOneWithRole *)

Lemma groups_with_role_In db groupId uid row :
  In row (groups_with_role db groupId uid) <->
  exists m g,
    In m (GroupMembers db) /\ In g (Groups db)
    /\ m_groupId m = groupId /\ m_uid m = uid /\ g_id g = groupId
    /\ row = role_view g m.
Proof.
  unfold groups_with_role. rewrite in_flat_map. split.
  - intros [m [Hm Hrow]]. apply filter_In in Hm. destruct Hm as [Hm Hp].
    apply andb_prop in Hp. destruct Hp as [Hg Hu]. apply Nat.eqb_eq in Hg, Hu.
    apply in_map_iff in Hrow. destruct Hrow as [g [Hrow Hgin]].
    apply filter_In in Hgin. destruct Hgin as [Hgin Hid].
    apply Nat.eqb_eq in Hid.
    exists m, g. repeat split; auto; congruence.
  - intros [m [g [Hm [Hg [Hmg [Hmu [Hid Hrow]]]]]]].
    exists m. split.
    + apply filter_In. split; [assumption|].
      apply andb_true_intro. split; apply Nat.eqb_eq; congruence.
    + apply in_map_iff. exists g. split; [now symmetry|].
      apply filter_In. split; [assumption|]. apply Nat.eqb_eq. congruence.
Qed.

Lemma findOneWithRole_run w groupId uid :
  faults w (Call "GroupMember" "aggregate") = None ->
  GroupService.findOneWithRole groupId uid w
  = (Return (hd_error (groups_with_role (store w) groupId uid)), w).
Proof.
  intros Hf. unfold GroupService.findOneWithRole. run_js.
  rewrite Hf. run_js. now rewrite findOneWithRole_rows.
Qed.

Lemma hd_error_None {A} (l : list A) : hd_error l = None <-> l = [].
Proof. destruct l; simpl; split; intros H; auto; discriminate. Qed.

(** Claim C5.  [findOneWithRole groupId uid] returns normally with at most
    one row.  The result is absent exactly when [uid] has no membership
    row for the group or the group document does not exist, so a
    membership row left behind by a deleted group yields absent; a row
    that is returned is built from an existing group and an existing
    membership row of [uid]. *)
Theorem findOneWithRole_absent_unless_member_and_group
        (w : World) (groupId uid : ObjectId) :
  faults w (Call "GroupMember" "aggregate") = None ->
  exists res,
    GroupService.findOneWithRole groupId uid w = (Return res, w)
    /\ (res = None <->
        (forall m, In m (GroupMembers (store w)) ->
                   ~ (m_groupId m = groupId /\ m_uid m = uid))
        \/ (forall g, In g (Groups (store w)) -> g_id g <> groupId))
    /\ (forall row,
           res = Some row ->
           exists m g,
             In m (GroupMembers (store w)) /\ In g (Groups (store w))
             /\ m_groupId m = groupId /\ m_uid m = uid /\ g_id g = groupId
             /\ row = group_view g [("role", VString (m_role m))]).
Proof.
  intros Hf. exists (hd_error (groups_with_role (store w) groupId uid)).
  split; [now apply findOneWithRole_run|]. split.
  - rewrite hd_error_None. split.
    + intros Hnil.
      destruct (filter (fun m => Nat.eqb groupId (m_groupId m)
                                 && Nat.eqb uid (m_uid m))
                       (GroupMembers (store w))) as [|m ms] eqn:Hms.
      * left. intros m Hm [Hg Hu].
        assert (Hin : In m []).
        { rewrite <- Hms. apply filter_In. split; [assumption|].
          apply andb_true_intro. split; apply Nat.eqb_eq; congruence. }
        destruct Hin.
      * right. intros g Hg Hid.
        assert (Hm : In m (m :: ms)) by now left.
        rewrite <- Hms in Hm. apply filter_In in Hm. destruct Hm as [Hm Hp].
        apply andb_prop in Hp. destruct Hp as [Hmg Hmu].
        apply Nat.eqb_eq in Hmg, Hmu.
        assert (Hin : In (role_view g m) (groups_with_role (store w) groupId uid)).
        { apply groups_with_role_In. exists m, g. repeat split; auto. }
        rewrite Hnil in Hin. destruct Hin.
    + intros Hno.
      destruct (groups_with_role (store w) groupId uid) as [|row rows] eqn:Hrows;
        [reflexivity|].
      assert (Hin : In row (groups_with_role (store w) groupId uid)).
      { rewrite Hrows. now left. }
      apply groups_with_role_In in Hin.
      destruct Hin as [m [g [Hm [Hg [Hmg [Hmu [Hid _]]]]]]].
      destruct Hno as [Hno|Hno].
      * exfalso. apply (Hno m Hm). auto.
      * exfalso. apply (Hno g Hg). auto.
  - intros row Hrow.
    apply groups_with_role_In.
    destruct (groups_with_role (store w) groupId uid) as [|r rs];
      simpl in Hrow; [discriminate|].
    inversion Hrow. now left.
Qed.

(** ** countGroups *)

Lemma countGroups_run w uid :
  faults w (Call "Group" "countDocuments") = None ->
  GroupService.countGroups uid w
  = (Return (List.length (filter (counted uid) (Groups (store w)))), w).
Proof.
  intros Hf. unfold GroupService.countGroups. run_js. rewrite Hf. run_js.
  erewrite filter_ext; [reflexivity|]. intros g. apply selects_counted.
Qed.

Lemma counted_iff uid g :
  counted uid g = true <->
  g_createdBy g = uid /\ get "appid" (Group_doc g) = None.
Proof.
  unfold counted. destruct g as [i n a cb ca ua]; simpl.
  rewrite andb_true_iff, Nat.eqb_eq.
  destruct a; simpl; split; intros [H1 H2]; split; auto; discriminate.
Qed.

(** Claim C7.  [countGroups uid] returns the number of group documents
    created by [uid] whose [appid] key is missing.  A group of the same
    creator that has an [appid] value is not counted: adding one to the
    collection leaves the count as it was. *)
Theorem countGroups_counts_created_without_appid (w : World) (uid : ObjectId) :
  faults w (Call "Group" "countDocuments") = None ->
  GroupService.countGroups uid w
  = (Return (List.length (filter (counted uid) (Groups (store w)))), w)
  /\ (forall g, counted uid g = true <->
                g_createdBy g = uid /\ get "appid" (Group_doc g) = None)
  /\ (forall g a, g_createdBy g = uid -> g_appid g = Present a ->
                  counted uid g = false)
  /\ (forall g a w2,
         g_createdBy g = uid -> g_appid g = Present a ->
         faults w2 = faults w ->
         Groups (store w2) = Groups (store w) ++ [g] ->
         fst (GroupService.countGroups uid w2)
         = fst (GroupService.countGroups uid w)).
Proof.
  intros Hf. split; [now apply countGroups_run|].
  split; [apply counted_iff|].
  assert (Hex : forall g a, g_createdBy g = uid -> g_appid g = Present a ->
                            counted uid g = false).
  { intros g a _ Ha. unfold counted. rewrite Ha. apply andb_false_r. }
  split; [exact Hex|].
  intros g a w2 Hcb Ha Hfw Hgs.
  rewrite !countGroups_run by congruence. simpl.
  rewrite Hgs, filter_app. simpl. rewrite (Hex g a Hcb Ha).
  now rewrite app_nil_r.
Qed.

(** ** update *)

Lemma selects_by_id groupId g :
  selects GroupC (GroupService.by_id groupId) g = Nat.eqb groupId (g_id g).
Proof.
  unfold selects. destruct g as [i n a cb ca ua]. cbn. apply andb_true_r.
Qed.

Lemma find_by_id groupId gs :
  find (selects GroupC (GroupService.by_id groupId)) gs
  = find (fun g => Nat.eqb groupId (g_id g)) gs.
Proof.
  induction gs as [|g gs IH]; cbn [find]; [reflexivity|].
  now rewrite selects_by_id, IH.
Qed.

Lemma update_first_split {A} (p : A -> bool) (f : A -> A) l a :
  find p l = Some a ->
  exists l1 l2, l = l1 ++ a :: l2
                /\ (forall x, In x l1 -> p x = false)
                /\ update_first p f l = l1 ++ f a :: l2.
Proof.
  induction l as [|x l IH]; simpl; [discriminate|].
  destruct (p x) eqn:Hpx.
  - intros H. inversion H; subst. exists [], l. repeat split; auto.
    intros y [].
  - intros H. destruct (IH H) as [l1 [l2 [Hl [Hno Hup]]]].
    exists (x :: l1), l2. simpl. rewrite Hl at 1. rewrite Hup.
    repeat split; auto. intros y [<-|Hy]; auto.
Qed.

(** Claim C9.  When a group with the id exists, [update groupId dto]
    replaces it in place by the document that takes every supplied
    attribute from [dto], keeps the others, and has [updatedAt] set to the
    current time even when [dto] supplies another one; it returns that
    document, and nothing else in the database changes.  When no group has
    the id, it returns absent without throwing and the world is
    unchanged. *)
Theorem update_merges_fields_and_stamps_updatedAt
        (w : World) (groupId : ObjectId) (dto : PartialGroup) :
  faults w (Call "Group" "findOneAndUpdate") = None ->
  match find (fun g => Nat.eqb groupId (g_id g)) (Groups (store w)) with
  | Some g =>
      exists g' w' before after,
        GroupService.update groupId dto w = (Return (Some g'), w')
        /\ g_id g' = g_id g
        /\ g_name g' = match p_name dto with Some n => n | None => g_name g end
        /\ g_appid g' = match p_appid dto with
                        | Some (Some s) => Present s
                        | Some None => Null
                        | None => g_appid g
                        end
        /\ g_createdBy g' = match p_createdBy dto with
                            | Some u => u
                            | None => g_createdBy g
                            end
        /\ g_createdAt g' = match p_createdAt dto with
                            | Some t => t
                            | None => g_createdAt g
                            end
        /\ g_updatedAt g' = clock w
        /\ Groups (store w) = before ++ g :: after
        /\ (forall x, In x before -> g_id x <> groupId)
        /\ Groups (store w') = before ++ g' :: after
        /\ GroupMembers (store w') = GroupMembers (store w)
        /\ GroupInvites (store w') = GroupInvites (store w)
        /\ GroupApplications (store w') = GroupApplications (store w)
  | None =>
      GroupService.update groupId dto w = (Return None, w)
      /\ (forall g, In g (Groups (store w)) -> g_id g <> groupId)
  end.
Proof.
  intros Hf. rewrite <- find_by_id.
  destruct (find (selects GroupC (GroupService.by_id groupId))
                 (Groups (store w))) as [g|] eqn:Hfind.
  - destruct (@update_first_split _
                (selects GroupC (GroupService.by_id groupId))
                (set_fields (spread_updatedAt dto (clock w))) _ _ Hfind)
      as [before [after [Hsplit [Hbefore Hupd]]]].
    exists (set_fields (spread_updatedAt dto (clock w)) g).
    eexists. exists before, after.
    split.
    { unfold GroupService.update. run_js. rewrite Hf. run_js.
      rewrite Hfind. run_js. reflexivity. }
    simpl. rewrite Hupd.
    split; [reflexivity|]. split; [reflexivity|].
    split; [destruct (p_appid dto) as [[s|]|]; reflexivity|].
    split; [reflexivity|]. split; [reflexivity|]. split; [reflexivity|].
    split; [assumption|].
    split.
    { intros x Hx Hid. apply Hbefore in Hx. rewrite selects_by_id in Hx.
      apply Nat.eqb_neq in Hx. congruence. }
    repeat split.
  - split.
    + unfold GroupService.update. run_js. rewrite Hf. run_js.
      rewrite Hfind. reflexivity.
    + intros g Hg Hid.
      apply (@find_none _ _ _ Hfind) in Hg. rewrite selects_by_id in Hg.
      apply Nat.eqb_neq in Hg. congruence.
Qed.

(* ===================================================================== *)
(** ** The transactional protocols *)
(* ===================================================================== *)

Lemma generated_before_spec n db :
  generated_before n db = true ->
  (forall g, In g (Groups db) -> g_id g < n)
  /\ (forall m, In m (GroupMembers db) -> m_id m < n /\ m_groupId m < n)
  /\ (forall i, In i (GroupInvites db) -> i_id i < n /\ i_groupId i < n)
  /\ (forall a, In a (GroupApplications db) -> a_id a < n /\ a_groupId a < n).
Proof.
  unfold generated_before. rewrite !andb_true_iff, !forallb_forall.
  intros [[[Hg Hm] Hi] Ha].
  split; [|split; [|split]]; intros x Hx;
    try (apply Hg in Hx); try (apply Hm in Hx);
    try (apply Hi in Hx); try (apply Ha in Hx);
    rewrite ?andb_true_iff, ?Nat.ltb_lt in Hx; tauto.
Qed.

Lemma existsb_none {A} (p : A -> bool) l :
  (forall x, In x l -> p x = false) -> existsb p l = false.
Proof.
  induction l as [|a l IH]; simpl; intros H; [reflexivity|].
  rewrite (H a) by now left. apply IH. intros x Hx. apply H. now right.
Qed.

Lemma filter_none {A} (p : A -> bool) l :
  (forall x, In x l -> p x = false) -> filter p l = [].
Proof.
  induction l as [|a l IH]; simpl; intros H; [reflexivity|].
  rewrite (H a) by now left. apply IH. intros x Hx. apply H. now right.
Qed.

Lemma find_none_all {A} (p : A -> bool) l :
  (forall x, In x l -> p x = false) -> find p l = None.
Proof.
  induction l as [|a l IH]; simpl; intros H; [reflexivity|].
  rewrite (H a) by now left. apply IH. intros x Hx. apply H. now right.
Qed.

Lemma find_snoc_fresh {A} (p : A -> bool) l a :
  (forall x, In x l -> p x = false) -> p a = true ->
  find p (l ++ [a]) = Some a.
Proof.
  induction l as [|x l IH]; simpl; intros H Ha; [now rewrite Ha|].
  rewrite (H x) by now left. apply IH; auto.
Qed.

(** What [create] does, by the first call that fails. *)
Lemma create_run name createdBy appid w :
  generator_ahead w = true ->
  match first_fault (faults w) create_steps with
  | Some e =>
      exists n d,
        GroupService.create name createdBy appid w
        = (Throw e,
           mkWorld (store w)
                   (sessions w ++ [mkSession Aborted d true])
                   (clock w) n
                   (logged w ++ [mkLogEntry "create group error" None e])
                   (faults w))
  | None =>
      match faults w CommitTransaction with
      | Some e =>
          GroupService.create name createdBy appid w
          = (Throw e,
             mkWorld (store w)
                     (sessions w
                        ++ [mkSession Committed
                                      (created_db w name createdBy appid) true])
                     (clock w) (S (S (S (nextObjectId w))))
                     (logged w ++ [mkLogEntry "create group error" None e])
                     (faults w))
      | None =>
          GroupService.create name createdBy appid w
          = (Return (Some (created_group w name createdBy appid)),
             mkWorld (created_db w name createdBy appid)
                     (sessions w
                        ++ [mkSession Committed
                                      (created_db w name createdBy appid) true])
                     (clock w) (S (S (S (nextObjectId w))))
                     (logged w) (faults w))
      end
  end.
Proof.
  intros Hgen. unfold GroupService.create, create_steps, first_fault.
  destruct (generated_before_spec _ _ Hgen) as [Hg [Hm [Hi Ha]]].
  run_js.
  destruct (faults w (Call "Group" "insertOne")) eqn:F1; run_js.
  { eexists _, _. reflexivity. }
  rewrite existsb_none.
  2:{ intros g Hin. apply Hg in Hin. apply Nat.eqb_neq. lia. }
  run_js.
  destruct (faults w (Call "GroupMember" "insertOne")) eqn:F2; run_js.
  { eexists _, _. reflexivity. }
  rewrite existsb_none.
  2:{ intros g Hin. apply Hm in Hin. apply Nat.eqb_neq. lia. }
  run_js.
  destruct (faults w (Call "GroupApplication" "insertOne")) eqn:F3; run_js.
  { eexists _, _. reflexivity. }
  rewrite existsb_none.
  2:{ intros g Hin. apply Ha in Hin. apply Nat.eqb_neq. lia. }
  run_js.
  destruct (faults w (Call "Group" "findOne")) eqn:F4; run_js.
  { eexists _, _. reflexivity. }
  destruct (faults w CommitTransaction) eqn:F5; run_js.
  { reflexivity. }
  rewrite find_snoc_fresh.
  - reflexivity.
  - intros g Hin. rewrite selects_by_id. apply Hg in Hin.
    apply Nat.eqb_neq. lia.
  - rewrite selects_by_id. apply Nat.eqb_refl.
Qed.

Lemma nth_error_replace_nth {A} (l : list A) s x y :
  nth_error l s = Some y -> nth_error (replace_nth s x l) s = Some x.
Proof.
  revert s. induction l as [|a l IH]; intros [|s]; simpl; try discriminate; auto.
Qed.

Lemma replace_nth_twice {A} (l : list A) s x y :
  replace_nth s y (replace_nth s x l) = replace_nth s y l.
Proof.
  revert s. induction l as [|a l IH]; intros [|s]; simpl; auto.
  now rewrite IH.
Qed.

Ltac run_borrowed Hs :=
  repeat (progress (run_js1;
                    rewrite ?(@nth_error_replace_nth _ _ _ _ _ Hs), ?replace_nth_twice, ?Hs)).

Lemma remove_first_ext {A} (p q : A -> bool) l :
  (forall a, p a = q a) -> remove_first p l = remove_first q l.
Proof.
  intros H. induction l as [|a l IH]; simpl; [reflexivity|].
  now rewrite H, IH.
Qed.

Lemma selects_member_groupId groupId m :
  selects GroupMemberC [Field "groupId" (CEq (VObjectId groupId))] m
  = Nat.eqb groupId (m_groupId m).
Proof. unfold selects. cbn. apply andb_true_r. Qed.

Lemma selects_invite_groupId groupId i :
  selects GroupInviteC [Field "groupId" (CEq (VObjectId groupId))] i
  = Nat.eqb groupId (i_groupId i).
Proof. unfold selects. cbn. apply andb_true_r. Qed.

Lemma selects_application_groupId groupId a :
  selects GroupApplicationC [Field "groupId" (CEq (VObjectId groupId))] a
  = Nat.eqb groupId (a_groupId a).
Proof. unfold selects. cbn. apply andb_true_r. Qed.

Lemma deleted_db_selects db groupId :
  deleted_db db groupId
  = mkDb (remove_first (selects GroupC (GroupService.by_id groupId)) (Groups db))
         (filter (fun a => negb (selects GroupMemberC
                                   [Field "groupId" (CEq (VObjectId groupId))] a))
                 (GroupMembers db))
         (filter (fun a => negb (selects GroupInviteC
                                   [Field "groupId" (CEq (VObjectId groupId))] a))
                 (GroupInvites db))
         (filter (fun a => negb (selects GroupApplicationC
                                   [Field "groupId" (CEq (VObjectId groupId))] a))
                 (GroupApplications db)).
Proof.
  unfold deleted_db. f_equal.
  - apply remove_first_ext. intros g. now rewrite selects_by_id.
  - apply filter_ext. intros m. now rewrite selects_member_groupId.
  - apply filter_ext. intros i. now rewrite selects_invite_groupId.
  - apply filter_ext. intros a. now rewrite selects_application_groupId.
Qed.

Ltac delete_paths run :=
  match goal with w : World |- _ =>
    destruct (faults w (Call "Group" "findOne")) eqn:?F0; run;
    [reflexivity|];
    destruct (faults w (Call "Group" "deleteOne")) eqn:?F1; run;
    [eexists; reflexivity|];
    destruct (faults w (Call "GroupMember" "deleteMany")) eqn:?F2; run;
    [eexists; reflexivity|];
    destruct (faults w (Call "GroupInvite" "deleteMany")) eqn:?F3; run;
    [eexists; reflexivity|];
    destruct (faults w (Call "GroupApplication" "deleteMany")) eqn:?F4; run;
    [eexists; reflexivity|];
    destruct (faults w CommitTransaction) eqn:?F5; run;
    reflexivity
  end.

(** What [delete] does on an idle session, by the first call that
    fails. *)
Lemma delete_run groupId session w :
  idle w session = true ->
  match faults w (Call "Group" "findOne") with
  | Some e =>
      GroupService.delete groupId session w
      = (Throw e,
         match session with
         | None =>
             with_sessions
               (sessions w ++ [mkSession NoTransaction (store w) false]) w
         | Some _ => w
         end)
  | None =>
      match first_fault (faults w) delete_steps with
      | Some e =>
          exists d,
            GroupService.delete groupId session w
            = (Throw e,
               mkWorld (store w) (close_session w session Aborted d)
                       (clock w) (nextObjectId w)
                       (logged w ++ [delete_log groupId e]) (faults w))
      | None =>
          match faults w CommitTransaction with
          | Some e =>
              GroupService.delete groupId session w
              = (Throw (TransactionError
                          "Cannot call abortTransaction after calling commitTransaction"),
                 mkWorld (store w)
                         (close_session w session Committed
                                        (deleted_db (store w) groupId))
                         (clock w) (nextObjectId w)
                         (logged w ++ [delete_log groupId e]) (faults w))
          | None =>
              GroupService.delete groupId session w
              = (Return (find (fun g => Nat.eqb groupId (g_id g))
                              (Groups (store w))),
                 mkWorld (deleted_db (store w) groupId)
                         (close_session w session Committed
                                        (deleted_db (store w) groupId))
                         (clock w) (nextObjectId w) (logged w) (faults w))
          end
      end
  end.
Proof.
  intros Hidle.
  rewrite deleted_db_selects, <- find_by_id.
  unfold GroupService.delete, delete_steps, first_fault, close_session,
    delete_log.
  destruct session as [s|].
  - unfold idle in Hidle.
    destruct (nth_error (sessions w) s) as [[t d en]|] eqn:Hs;
      [|discriminate].
    simpl in Hidle. destruct en; [discriminate|].
    destruct t; try discriminate; run_borrowed Hs;
      delete_paths ltac:(run_borrowed Hs).
  - run_js. delete_paths ltac:(run_js).
Qed.

Lemma first_fault_app plan ops1 ops2 :
  first_fault plan (ops1 ++ ops2)
  = match first_fault plan ops1 with
    | Some e => Some e
    | None => first_fault plan ops2
    end.
Proof.
  induction ops1 as [|op ops1 IH]; simpl; [reflexivity|].
  destruct (plan op); auto.
Qed.





Lemma delete_not_idle_throws groupId s w :
  idle w (Some s) = false ->
  exists e w', GroupService.delete groupId (Some s) w = (Throw e, w').
Proof.
  unfold idle. intros Hidle. unfold GroupService.delete.
  destruct (nth_error (sessions w) s) as [[t d en]|] eqn:Hs.
  - simpl in Hidle. destruct en.
    + run_borrowed Hs.
      destruct (faults w (Call "Group" "findOne")); run_borrowed Hs;
        eexists _, _; reflexivity.
    + destruct t; try discriminate. run_borrowed Hs.
      destruct (faults w (Call "Group" "findOne")); run_borrowed Hs;
        eexists _, _; reflexivity.
  - run_borrowed Hs.
    destruct (faults w (Call "Group" "findOne")); run_borrowed Hs;
      eexists _, _; reflexivity.
Qed.

(** [delete] can only return on an idle session and after a successful
    first read. *)
Lemma delete_success_idle groupId session w res w' :
  GroupService.delete groupId session w = (Return res, w') ->
  idle w session = true /\ faults w (Call "Group" "findOne") = None.
Proof.
  intros Hres.
  assert (Hidle : idle w session = true).
  { destruct session as [s|]; [|reflexivity].
    destruct (idle w (Some s)) eqn:Hidle; [reflexivity|].
    destruct (delete_not_idle_throws groupId s w Hidle) as [e [w'' H]].
    rewrite H in Hres. discriminate. }
  split; [assumption|].
  pose proof (delete_run groupId session w Hidle) as Hrun.
  destruct (faults w (Call "Group" "findOne")); [|reflexivity].
  rewrite Hrun in Hres. discriminate.
Qed.

Lemma filter_negb_none {A} (p : A -> bool) l :
  filter p (filter (fun a => negb (p a)) l) = [].
Proof.
  apply filter_none. intros x Hx. apply filter_In in Hx.
  destruct Hx as [_ Hx]. now apply negb_true_iff in Hx.
Qed.

Lemma remove_first_unique {A} (k : A -> nat) (n : nat) l :
  NoDup (map k l) ->
  filter (fun a => Nat.eqb n (k a))
         (remove_first (fun a => Nat.eqb n (k a)) l) = [].
Proof.
  induction l as [|a l IH]; simpl; intros Hnd; [reflexivity|].
  inversion Hnd as [|? ? Hnotin Hnd']; subst.
  destruct (Nat.eqb n (k a)) eqn:Hna.
  - apply Nat.eqb_eq in Hna. subst n. apply filter_none. intros x Hx.
    apply Nat.eqb_neq. intros Heq. apply Hnotin. rewrite Heq.
    now apply in_map.
  - simpl. rewrite Hna. now apply IH.
Qed.

Lemma deleted_rows db groupId :
  NoDup (map g_id (Groups db)) ->
  groups_by_id (deleted_db db groupId) groupId = []
  /\ members_of (deleted_db db groupId) groupId = []
  /\ invites_of (deleted_db db groupId) groupId = []
  /\ applications_of (deleted_db db groupId) groupId = [].
Proof.
  intros Hnd.
  unfold groups_by_id, members_of, invites_of, applications_of, deleted_db.
  cbn [Groups GroupMembers GroupInvites GroupApplications].
  split; [now apply remove_first_unique|].
  repeat split; apply filter_negb_none.
Qed.

Lemma find_some_first {A} (k : A -> nat) (n : nat) l a :
  NoDup (map k l) -> In a l -> k a = n ->
  find (fun x => Nat.eqb n (k x)) l = Some a.
Proof.
  induction l as [|x l IH]; simpl; intros Hnd Hin Hk; [destruct Hin|].
  inversion Hnd as [|? ? Hnotin Hnd']; subst.
  destruct Hin as [<-|Hin].
  - now rewrite Nat.eqb_refl.
  - destruct (Nat.eqb (k a) (k x)) eqn:Hax; [|now apply IH].
    apply Nat.eqb_eq in Hax. exfalso. apply Hnotin. rewrite <- Hax.
    now apply in_map.
Qed.

Lemma txn_state_closed w session t d st c n lg f :
  idle w session = true ->
  txn_state (mkWorld st (close_session w session t d) c n lg f)
            (session_of w session) = Some t.
Proof.
  unfold txn_state, close_session, session_of, idle. cbn [sessions].
  destruct session as [s|]; intros Hidle.
  - destruct (nth_error (sessions w) s) as [ss|] eqn:Hs; [|discriminate].
    now rewrite (@nth_error_replace_nth _ _ _ _ _ Hs).
  - now rewrite nth_error_snoc.
Qed.

(** Claim C2.  With group ids unique, a [delete] that returns has returned
    the group as it was read before the deletion (the group itself when it
    existed), and afterwards no row of the four collections is keyed to
    the group id.  If one of the four deletion steps throws, [delete]
    rethrows that very error after logging it, the transaction is aborted
    and the committed database is unchanged.  When nothing fails, [delete]
    does return. *)
Theorem delete_all_or_nothing
        (groupId : ObjectId) (session : option SessionRef) (w : World) :
  NoDup (map g_id (Groups (store w))) ->
  let before := find (fun g => Nat.eqb groupId (g_id g)) (Groups (store w)) in
  (forall res w',
      GroupService.delete groupId session w = (Return res, w') ->
      res = before
      /\ groups_by_id (store w') groupId = []
      /\ members_of (store w') groupId = []
      /\ invites_of (store w') groupId = []
      /\ applications_of (store w') groupId = [])
  /\ (forall g, In g (Groups (store w)) -> g_id g = groupId -> before = Some g)
  /\ (idle w session = true ->
      faults w (Call "Group" "findOne") = None ->
      forall e,
        first_fault (faults w) delete_steps = Some e ->
        exists w',
          GroupService.delete groupId session w = (Throw e, w')
          /\ store w' = store w
          /\ txn_state w' (session_of w session) = Some Aborted
          /\ logged w' = logged w ++ [delete_log groupId e])
  /\ (idle w session = true ->
      first_fault (faults w)
                  (Call "Group" "findOne" :: delete_steps ++ [CommitTransaction])
      = None ->
      exists w',
        GroupService.delete groupId session w = (Return before, w')).
Proof.
  intros Hnd before. split; [|split; [|split]].
  - intros res w' Hres.
    destruct (delete_success_idle _ _ _ Hres) as [Hidle Hpre].
    pose proof (delete_run groupId session w Hidle) as Hrun.
    rewrite Hpre in Hrun.
    destruct (first_fault (faults w) delete_steps) as [e|].
    { destruct Hrun as [d Hrun]. rewrite Hrun in Hres. discriminate. }
    destruct (faults w CommitTransaction) as [e|].
    { rewrite Hrun in Hres. discriminate. }
    rewrite Hrun in Hres. inversion Hres; subst res w'. cbn [store].
    split; [reflexivity|]. now apply deleted_rows.
  - intros g Hg Hid. now apply find_some_first.
  - intros Hidle Hpre e He.
    pose proof (delete_run groupId session w Hidle) as Hrun.
    rewrite Hpre, He in Hrun. destruct Hrun as [d Hrun].
    eexists. split; [exact Hrun|]. cbn [store logged].
    split; [reflexivity|]. split; [|reflexivity].
    now apply txn_state_closed.
  - intros Hidle Hnone.
    pose proof (delete_run groupId session w Hidle) as Hrun.
    cbn [first_fault] in Hnone.
    destruct (faults w (Call "Group" "findOne")); [discriminate|].
    rewrite first_fault_app in Hnone.
    destruct (first_fault (faults w) delete_steps); [discriminate|].
    simpl in Hnone. destruct (faults w CommitTransaction); [discriminate|].
    eexists. exact Hrun.
Qed.

Lemma filter_nil_none {A} (p : A -> bool) l :
  filter p l = [] -> forall x, In x l -> p x = false.
Proof.
  intros Hnil x Hx. destruct (p x) eqn:Hpx; [|reflexivity].
  assert (Hin : In x (filter p l)) by (apply filter_In; auto).
  rewrite Hnil in Hin. destruct Hin.
Qed.

Lemma remove_first_none {A} (p : A -> bool) l :
  (forall x, In x l -> p x = false) -> remove_first p l = l.
Proof.
  induction l as [|a l IH]; simpl; intros H; [reflexivity|].
  rewrite (H a) by now left. f_equal. apply IH. intros x Hx. apply H. now right.
Qed.

Lemma filter_negb_all {A} (p : A -> bool) l :
  (forall x, In x l -> p x = false) -> filter (fun a => negb (p a)) l = l.
Proof.
  induction l as [|a l IH]; simpl; intros H; [reflexivity|].
  rewrite (H a) by now left. simpl. f_equal. apply IH.
  intros x Hx. apply H. now right.
Qed.

Lemma unreferenced_spec db groupId :
  unreferenced db groupId = true ->
  groups_by_id db groupId = [] /\ members_of db groupId = []
  /\ invites_of db groupId = [] /\ applications_of db groupId = [].
Proof.
  unfold unreferenced.
  destruct (groups_by_id db groupId), (members_of db groupId),
    (invites_of db groupId), (applications_of db groupId);
    intros H; try discriminate; auto.
Qed.

Lemma unreferenced_deleted db groupId :
  NoDup (map g_id (Groups db)) ->
  unreferenced (deleted_db db groupId) groupId = true.
Proof.
  intros Hnd. destruct (deleted_rows db groupId Hnd) as [Hg [Hm [Hi Ha]]].
  unfold unreferenced. now rewrite Hg, Hm, Hi, Ha.
Qed.

Lemma deleted_db_unreferenced db groupId :
  unreferenced db groupId = true -> deleted_db db groupId = db.
Proof.
  intros Hun. destruct (unreferenced_spec db groupId Hun) as [Hg [Hm [Hi Ha]]].
  unfold deleted_db, groups_by_id, members_of, invites_of, applications_of in *.
  rewrite remove_first_none by (now apply filter_nil_none).
  rewrite !filter_negb_all by (now apply filter_nil_none).
  now destruct db.
Qed.

Lemma delete_absent_run groupId session w :
  idle w session = true ->
  first_fault (faults w)
              (Call "Group" "findOne" :: delete_steps ++ [CommitTransaction])
  = None ->
  unreferenced (store w) groupId = true ->
  GroupService.delete groupId session w
  = (Return None,
     mkWorld (store w) (close_session w session Committed (store w))
             (clock w) (nextObjectId w) (logged w) (faults w)).
Proof.
  intros Hidle Hnone Hun.
  pose proof (delete_run groupId session w Hidle) as Hrun.
  cbn [first_fault] in Hnone.
  destruct (faults w (Call "Group" "findOne")); [discriminate|].
  rewrite first_fault_app in Hnone.
  destruct (first_fault (faults w) delete_steps); [discriminate|].
  simpl in Hnone. destruct (faults w CommitTransaction); [discriminate|].
  rewrite Hrun, (deleted_db_unreferenced _ _ Hun). f_equal. f_equal.
  apply find_none_all. apply filter_nil_none.
  now destruct (unreferenced_spec _ _ Hun).
Qed.

Lemma idle_after_close w session d st c n lg f :
  idle w session = true ->
  idle (mkWorld st (close_session w session Committed d) c n lg f) session
  = true.
Proof.
  unfold idle, close_session. cbn [sessions].
  destruct session as [s|]; [|reflexivity].
  destruct (nth_error (sessions w) s) as [ss|] eqn:Hs; [|discriminate].
  intros _. now rewrite (@nth_error_replace_nth _ _ _ _ _ Hs).
Qed.

(** Claim C6.  When nothing fails, [delete] of a group id to which no row
    of the four collections is keyed returns absent without throwing and
    leaves the database unchanged.  Hence a second [delete] of the same
    id, after a first one that succeeded, returns absent and changes
    nothing. *)
Theorem delete_of_absent_group_is_noop
        (groupId : ObjectId) (session : option SessionRef) (w : World) :
  idle w session = true ->
  first_fault (faults w)
              (Call "Group" "findOne" :: delete_steps ++ [CommitTransaction])
  = None ->
  (unreferenced (store w) groupId = true ->
   exists w',
     GroupService.delete groupId session w = (Return None, w')
     /\ store w' = store w)
  /\ (NoDup (map g_id (Groups (store w))) ->
      exists res w1 w2,
        GroupService.delete groupId session w = (Return res, w1)
        /\ GroupService.delete groupId session w1 = (Return None, w2)
        /\ store w2 = store w1).
Proof.
  intros Hidle Hnone. split.
  - intros Hun. eexists. split; [now apply delete_absent_run|reflexivity].
  - intros Hnd.
    pose proof (delete_run groupId session w Hidle) as Hrun.
    pose proof Hnone as Hnone'.
    cbn [first_fault] in Hnone'.
    destruct (faults w (Call "Group" "findOne")) eqn:F0; [discriminate|].
    rewrite first_fault_app in Hnone'.
    destruct (first_fault (faults w) delete_steps) eqn:F1; [discriminate|].
    simpl in Hnone'.
    destruct (faults w CommitTransaction) eqn:F2; [discriminate|].
    eexists _, _, _. split; [exact Hrun|]. split.
    + apply delete_absent_run.
      * now apply idle_after_close.
      * exact Hnone.
      * cbn [store]. now apply unreferenced_deleted.
    + reflexivity.
Qed.

(** ** Session lifetime *)

Lemma ended_snoc st ss t d en c n lg f :
  ended (mkWorld st (ss ++ [mkSession t d en]) c n lg f) (List.length ss)
  = Some en.
Proof. unfold ended. cbn [sessions]. now rewrite nth_error_snoc. Qed.

(** Claim C10, the path that escapes the cleanup.  [delete] called without
    a session starts one, then reads the group before it enters the
    [try ... finally]; when that read throws, the error leaves [delete]
    and the session it started is still open. *)
Theorem delete_leaves_own_session_open_when_preread_fails
        (groupId : ObjectId) (w : World) (e : Error) :
  faults w (Call "Group" "findOne") = Some e ->
  exists w',
    GroupService.delete groupId None w = (Throw e, w')
    /\ ended w (List.length (sessions w)) = None
    /\ ended w' (List.length (sessions w)) = Some false.
Proof.
  intros Hpre.
  pose proof (delete_run groupId None w eq_refl) as Hrun.
  rewrite Hpre in Hrun. eexists. split; [exact Hrun|]. split.
  - unfold ended.
    destruct (nth_error (sessions w) (List.length (sessions w))) eqn:Hn;
      [|reflexivity].
    assert (Hlt : List.length (sessions w) < List.length (sessions w)).
    { apply nth_error_Some. congruence. }
    lia.
  - unfold with_sessions. apply ended_snoc.
Qed.

(** Once the read before the [try] has succeeded, [delete] ends the
    session it started, on every path. *)
Lemma delete_ends_own_session (groupId : ObjectId) (w : World) :
  faults w (Call "Group" "findOne") = None ->
  ended (snd (GroupService.delete groupId None w)) (List.length (sessions w))
  = Some true.
Proof.
  intros Hpre.
  pose proof (delete_run groupId None w eq_refl) as Hrun.
  rewrite Hpre in Hrun.
  destruct (first_fault (faults w) delete_steps).
  - destruct Hrun as [d Hrun]. rewrite Hrun. apply ended_snoc.
  - destruct (faults w CommitTransaction); rewrite Hrun; apply ended_snoc.
Qed.

Lemma ended_replace w s t d en st c n lg f ss :
  nth_error (sessions w) s = Some ss ->
  ended (mkWorld st (replace_nth s (mkSession t d en) (sessions w)) c n lg f) s
  = Some en.
Proof.
  intros Hs. unfold ended. cbn [sessions].
  now rewrite (@nth_error_replace_nth _ _ _ _ _ Hs).
Qed.

(** A session passed in by the caller is never ended by [delete],
    whatever its state and whatever fails. *)
Lemma delete_never_ends_borrowed_session
      (groupId : ObjectId) (s : SessionRef) (w : World) :
  ended (snd (GroupService.delete groupId (Some s) w)) s = ended w s.
Proof.
  destruct (idle w (Some s)) eqn:Hidle.
  - pose proof (delete_run groupId (Some s) w Hidle) as Hrun.
    unfold idle in Hidle.
    destruct (nth_error (sessions w) s) as [[t d en]|] eqn:Hs; [|discriminate].
    simpl in Hidle. destruct en; [discriminate|].
    assert (Hw : ended w s = Some false) by (unfold ended; now rewrite Hs).
    rewrite Hw.
    destruct (faults w (Call "Group" "findOne")).
    { now rewrite Hrun. }
    destruct (first_fault (faults w) delete_steps).
    { destruct Hrun as [d' Hrun]. rewrite Hrun. eapply ended_replace; eauto. }
    destruct (faults w CommitTransaction); rewrite Hrun;
      eapply ended_replace; eauto.
  - unfold idle in Hidle. unfold GroupService.delete.
    destruct (nth_error (sessions w) s) as [[t d en]|] eqn:Hs.
    + assert (Hw : ended w s = Some en) by (unfold ended; now rewrite Hs).
      simpl in Hidle. destruct en.
      * run_borrowed Hs.
        destruct (faults w (Call "Group" "findOne")); run_borrowed Hs;
          reflexivity.
      * destruct t; try discriminate. run_borrowed Hs.
        destruct (faults w (Call "Group" "findOne")); run_borrowed Hs;
          cbn [snd]; [reflexivity|].
        rewrite Hw. eapply ended_replace; eauto.
    + run_borrowed Hs.
      destruct (faults w (Call "Group" "findOne")); run_borrowed Hs;
        reflexivity.
Qed.

(** [create] ends the session it started, on every path. *)
Lemma create_always_ends_its_session
      (name : string) (createdBy : ObjectId) (appid : option string)
      (w : World) :
  ended (snd (GroupService.create name createdBy appid w))
        (List.length (sessions w))
  = Some true.
Proof.
  unfold GroupService.create. run_js.
  destruct (faults w (Call "Group" "insertOne")); run_js;
    [apply ended_snoc|].
  destruct (existsb _ (Groups (store w))); run_js; [apply ended_snoc|].
  destruct (faults w (Call "GroupMember" "insertOne")); run_js;
    [apply ended_snoc|].
  destruct (existsb _ (GroupMembers (store w))); run_js; [apply ended_snoc|].
  destruct (faults w (Call "GroupApplication" "insertOne")); run_js;
    [apply ended_snoc|].
  destruct (existsb _ (GroupApplications (store w))); run_js;
    [apply ended_snoc|].
  destruct (faults w (Call "Group" "findOne")); run_js; [apply ended_snoc|].
  destruct (faults w CommitTransaction); run_js; apply ended_snoc.
Qed.

(* ===================================================================== *)
(** ** Sample runs *)
(* ===================================================================== *)

(** User 10 belongs to the plain group 1, the scoped group 2, the legacy
    group 3 and to a group 9 that is gone: the list shows groups 1 and 3,
    group 1 with both of its members. *)
Example findAll_sample :
  fst (GroupService.findAll 10 w0)
  = Return
      [[("_id", VObjectId 1); ("name", VString "plain");
        ("createdAt", VDate 5); ("updatedAt", VDate 5);
        ("members",
         VArray [VDocument [("uid", VObjectId 10); ("role", VString "owner")];
                 VDocument [("uid", VObjectId 11); ("role", VString "admin")]])];
       [("_id", VObjectId 3); ("name", VString "legacy");
        ("createdAt", VDate 5); ("updatedAt", VDate 5);
        ("members",
         VArray [VDocument [("uid", VObjectId 10); ("role", VString "owner")]])]].
Proof. reflexivity. Qed.

Example findGroupsByAppidAndUid_sample :
  fst (GroupService.findGroupsByAppidAndUid "app-1" 10 w0)
  = Return [[("_id", VObjectId 2); ("name", VString "scoped");
             ("createdAt", VDate 5); ("updatedAt", VDate 5);
             ("role", VString "owner")]]
  /\ fst (GroupService.findGroupsByAppidAndUid "app-1" 11 w0) = Return [].
Proof. split; reflexivity. Qed.

Example findOneWithRole_sample :
  fst (GroupService.findOneWithRole 1 11 w0)
  = Return (Some [("_id", VObjectId 1); ("name", VString "plain");
                  ("createdAt", VDate 5); ("updatedAt", VDate 5);
                  ("role", VString "admin")])
  /\ fst (GroupService.findOneWithRole 9 10 w0) = Return None.
Proof. split; reflexivity. Qed.

(** Only the legacy group, whose [appid] key is missing, is counted. *)
Example countGroups_sample :
  fst (GroupService.countGroups 10 w0) = Return 1.
Proof. reflexivity. Qed.

Example delete_sample :
  fst (GroupService.delete 1 None w0)
  = Return (Some (mkGroup 1 "plain" Null 10 5 5))
  /\ store (snd (GroupService.delete 1 None w0))
     = mkDb [mkGroup 2 "scoped" (Present "app-1") 10 5 5;
             mkGroup 3 "legacy" Missing 10 5 5]
            [mkGroupMember 101 2 10 Owner; mkGroupMember 103 9 10 "admin";
             mkGroupMember 104 3 10 Owner]
            []
            [mkGroupApplication 201 2 (Present "app-1")].
Proof. split; reflexivity. Qed.

(** A deletion step that fails leaves the committed store as it was. *)
Example delete_rollback_sample :
  let w := mkWorld db0 [] 7 1000 []
                   (fail_at (Call "GroupInvite" "deleteMany") (StorageError 2)) in
  fst (GroupService.delete 1 None w) = Throw (StorageError 2)
  /\ store (snd (GroupService.delete 1 None w)) = db0.
Proof. split; reflexivity. Qed.

(* ===================================================================== *)
(** ** The theorems at the sample worlds *)
(* ===================================================================== *)

Ltac distinct := repeat constructor; simpl; intuition discriminate.


Lemma delete_all_or_nothing_witness :
  NoDup (map g_id (Groups (store w_borrowed)))
  /\ exists w',
       GroupService.delete 1 (Some 0) w_borrowed
       = (Return (Some (mkGroup 1 "plain" Null 10 5 5)), w').
Proof.
  assert (H : NoDup (map g_id (Groups (store w_borrowed)))) by distinct.
  split; [exact H|].
  destruct (delete_all_or_nothing 1 (Some 0) w_borrowed H) as [_ [_ [_ H']]].
  apply H'; reflexivity.
Defined.

Lemma findAll_one_row_per_plain_group_witness :
  faults w0 (Call "GroupMember" "aggregate") = None
  /\ NoDup (map g_id (Groups (store w0)))
  /\ NoDup (map (fun m => (m_groupId m, m_uid m)) (GroupMembers (store w0)))
  /\ exists rows,
       GroupService.findAll 10 w0 = (Return rows, w0)
       /\ NoDup (map row_id rows).
Proof.
  assert (H1 : NoDup (map g_id (Groups (store w0)))) by distinct.
  assert (H2 : NoDup (map (fun m => (m_groupId m, m_uid m))
                          (GroupMembers (store w0)))) by distinct.
  split; [reflexivity|]. split; [exact H1|]. split; [exact H2|].
  destruct (findAll_one_row_per_plain_group w0 10 eq_refl H1 H2)
    as [rows [Hr [Hn _]]].
  exists rows. split; assumption.
Defined.

Lemma findGroupsByAppidAndUid_only_own_membership_witness :
  faults w0 (Call "GroupApplication" "aggregate") = None
  /\ NoDup (map g_id (Groups (store w0)))
  /\ NoDup (map (fun m => (m_groupId m, m_uid m)) (GroupMembers (store w0)))
  /\ NoDup (map (fun a => (a_groupId a, a_appid a))
                (GroupApplications (store w0)))
  /\ exists rows,
       GroupService.findGroupsByAppidAndUid "app-1" 10 w0 = (Return rows, w0)
       /\ NoDup (map row_id rows).
Proof.
  assert (H1 : NoDup (map g_id (Groups (store w0)))) by distinct.
  assert (H2 : NoDup (map (fun m => (m_groupId m, m_uid m))
                          (GroupMembers (store w0)))) by distinct.
  assert (H3 : NoDup (map (fun a => (a_groupId a, a_appid a))
                          (GroupApplications (store w0)))) by distinct.
  split; [reflexivity|]. split; [exact H1|]. split; [exact H2|].
  split; [exact H3|].
  destruct (findGroupsByAppidAndUid_only_own_membership w0 "app-1" 10
              eq_refl H1 H2 H3) as [rows [Hr [Hn _]]].
  exists rows. split; assumption.
Defined.

Lemma findOneWithRole_absent_unless_member_and_group_witness :
  faults w0 (Call "GroupMember" "aggregate") = None
  /\ exists res, GroupService.findOneWithRole 9 10 w0 = (Return res, w0).
Proof.
  split; [reflexivity|].
  destruct (findOneWithRole_absent_unless_member_and_group w0 9 10 eq_refl)
    as [res [Hr _]].
  exists res. exact Hr.
Defined.

Lemma delete_of_absent_group_is_noop_witness :
  idle w0 None = true
  /\ first_fault (faults w0)
       (Call "Group" "findOne" :: delete_steps ++ [CommitTransaction]) = None
  /\ unreferenced (store w0) 42 = true
  /\ exists w', GroupService.delete 42 None w0 = (Return None, w')
                /\ store w' = store w0.
Proof.
  split; [reflexivity|]. split; [reflexivity|]. split; [reflexivity|].
  destruct (delete_of_absent_group_is_noop 42 None w0 eq_refl eq_refl)
    as [H _].
  apply H. reflexivity.
Defined.

Lemma countGroups_counts_created_without_appid_witness :
  faults w0 (Call "Group" "countDocuments") = None
  /\ GroupService.countGroups 10 w0 = (Return 1, w0).
Proof.
  split; [reflexivity|].
  destruct (countGroups_counts_created_without_appid w0 10 eq_refl) as [H _].
  exact H.
Defined.


Lemma update_merges_fields_and_stamps_updatedAt_witness :
  faults w0 (Call "Group" "findOneAndUpdate") = None
  /\ exists g' w',
       GroupService.update 1 (mkPartialGroup (Some "renamed") None None None
                                             (Some 99)) w0
       = (Return (Some g'), w')
       /\ g_name g' = "renamed" /\ g_updatedAt g' = 7.
Proof.
  split; [reflexivity|].
  pose proof (update_merges_fields_and_stamps_updatedAt w0 1
                (mkPartialGroup (Some "renamed") None None None (Some 99))
                eq_refl) as H.
  simpl in H.
  destruct H as [g' [w' [before [after [Hu [_ [Hn [_ [_ [_ [Ht _]]]]]]]]]]].
  exists g', w'. auto.
Defined.

Lemma delete_leaves_own_session_open_when_preread_fails_witness :
  faults w_preread_fails (Call "Group" "findOne") = Some (StorageError 1)
  /\ exists w',
       GroupService.delete 1 None w_preread_fails = (Throw (StorageError 1), w')
       /\ ended w' 0 = Some false.
Proof.
  split; [reflexivity|].
  destruct (delete_leaves_own_session_open_when_preread_fails
              1 w_preread_fails eq_refl) as [w' [Hd [_ He]]].
  exists w'. split; assumption.
Defined.

(* ===================================================================== *)
(** ** Further properties of the service *)
(* ===================================================================== *)

Unset Implicit Arguments.

(** *** Error behaviour of the read side *)

(** Property X1.  When the aggregation of [findAll] fails, whatever the
    error, the caller gets the fixed error "Failed to get group members";
    the original error is only logged, and nothing else changes. *)
Theorem findAll_flattens_storage_errors (w : World) (uid : ObjectId) (e : Error) :
  faults w (Call "GroupMember" "aggregate") = Some e ->
  GroupService.findAll uid w
  = (Throw (JsError "Failed to get group members"),
     with_logged
       (logged w ++ [mkLogEntry "Error fetching group members:" None e]) w).
Proof.
  intros Hf. unfold GroupService.findAll. run_js. rewrite Hf. run_js.
  reflexivity.
Qed.

(** Property X2.  When the aggregation of [findGroupsByAppidAndUid]
    fails, whatever the error, the caller gets the fixed error "Failed
    to get groups data"; the original error is only logged. *)
Theorem findGroupsByAppidAndUid_flattens_storage_errors
        (w : World) (appid : string) (uid : ObjectId) (e : Error) :
  faults w (Call "GroupApplication" "aggregate") = Some e ->
  GroupService.findGroupsByAppidAndUid appid uid w
  = (Throw (JsError "Failed to get groups data"),
     with_logged
       (logged w
          ++ [mkLogEntry "Error fetching groups by appid and uid:" None e]) w).
Proof.
  intros Hf. unfold GroupService.findGroupsByAppidAndUid. run_js.
  rewrite Hf. run_js. reflexivity.
Qed.


(** *** FindGroupByAppid *)

Lemma selects_appid appid g :
  selects GroupC [Field "appid" (CEq (VString appid))] g
  = has_appid appid (g_appid g).
Proof.
  unfold selects. destruct g as [i n a cb ca ua]; destruct a; cbn;
    try reflexivity. apply andb_true_r.
Qed.

Lemma find_split {A} (p : A -> bool) l a :
  find p l = Some a ->
  exists l1 l2, l = l1 ++ a :: l2 /\ p a = true
                /\ forall x, In x l1 -> p x = false.
Proof.
  induction l as [|x l IH]; simpl; [discriminate|].
  destruct (p x) eqn:Hpx.
  - intros H. inversion H; subst. exists [], l. repeat split; auto.
    intros y [].
  - intros H. destruct (IH H) as [l1 [l2 [Hl [Hpa Hno]]]].
    exists (x :: l1), l2. simpl. rewrite Hl at 1.
    repeat split; auto. intros y [<-|Hy]; auto.
Qed.

(** Property X4.  [findGroupByAppid appid] returns the first stored group
    whose [appid] holds that string, and absent exactly when no group
    does; a group whose [appid] is null or missing is never returned. *)
Theorem findGroupByAppid_first_group_of_application
        (w : World) (appid : string) :
  faults w (Call "Group" "findOne") = None ->
  exists res,
    GroupService.findGroupByAppid appid w = (Return res, w)
    /\ (res = None <->
        forall g, In g (Groups (store w)) -> g_appid g <> Present appid)
    /\ (forall g,
           res = Some g ->
           g_appid g = Present appid
           /\ exists before after,
                Groups (store w) = before ++ g :: after
                /\ forall x, In x before -> g_appid x <> Present appid).
Proof.
  intros Hf.
  exists (find (fun g => has_appid appid (g_appid g)) (Groups (store w))).
  split.
  { unfold GroupService.findGroupByAppid. run_js. rewrite Hf. run_js.
    f_equal. f_equal. induction (Groups (store w)) as [|g gs IH];
      cbn [find]; [reflexivity|]. now rewrite selects_appid, IH. }
  split.
  - split.
    + intros Hnone g Hg Happ.
      pose proof (find_none _ _ Hnone g Hg) as Hn. cbv beta in Hn.
      apply has_appid_iff in Happ. congruence.
    + intros Hall.
      destruct (find _ (Groups (store w))) as [g|] eqn:Hfind; [|reflexivity].
      destruct (find_some _ _ Hfind) as [Hg Happ].
      apply has_appid_iff in Happ. exfalso. exact (Hall g Hg Happ).
  - intros g Hfind.
    destruct (@find_split _ _ _ _ Hfind) as [before [after [Hl [Hp Hno]]]].
    split; [now apply has_appid_iff|].
    exists before, after. split; [assumption|].
    intros x Hx Happ. apply Hno in Hx. apply has_appid_iff in Happ. congruence.
Qed.

(** *** FindOne *)


(** *** Delete on a session that cannot take a new transaction *)

(** Property X6.  [delete] always calls [startTransaction].  When the
    caller passes a session whose transaction is already in progress,
    that call throws, and the handler of [delete] then aborts the
    caller's transaction: the caller gets "Transaction already in
    progress", its own transaction is gone, the store is unchanged. *)
Theorem delete_aborts_the_callers_open_transaction
        (groupId : ObjectId) (s : SessionRef) (d : Db) (w : World) :
  nth_error (sessions w) s = Some (mkSession InProgress d false) ->
  faults w (Call "Group" "findOne") = None ->
  exists w',
    GroupService.delete groupId (Some s) w
    = (Throw (TransactionError "Transaction already in progress"), w')
    /\ store w' = store w
    /\ nth_error (sessions w') s = Some (mkSession Aborted d false)
    /\ logged w'
       = logged w
           ++ [delete_log groupId
                 (TransactionError "Transaction already in progress")].
Proof.
  intros Hs Hf. unfold GroupService.delete, delete_log.
  run_borrowed Hs. rewrite Hf. run_borrowed Hs.
  eexists. split; [reflexivity|]. cbn [store sessions logged].
  rewrite (@nth_error_replace_nth _ _ _ _ _ Hs). auto.
Qed.


(** Property X8.  When the four deletions succeed and the commit fails,
    the handler of [delete] logs the commit error and then calls
    [abortTransaction] on a session that is already past its commit;
    that call throws, and its error, not the commit error, is what the
    caller receives.  The store is unchanged. *)
Theorem delete_commit_failure_is_masked_by_the_abort
        (groupId : ObjectId) (session : option SessionRef) (w : World)
        (e : Error) :
  idle w session = true ->
  first_fault (faults w) (Call "Group" "findOne" :: delete_steps) = None ->
  faults w CommitTransaction = Some e ->
  exists w',
    GroupService.delete groupId session w
    = (Throw (TransactionError
                "Cannot call abortTransaction after calling commitTransaction"),
       w')
    /\ store w' = store w
    /\ logged w' = logged w ++ [delete_log groupId e]
    /\ txn_state w' (session_of w session) = Some Committed.
Proof.
  intros Hidle Hnone Hcommit.
  pose proof (delete_run groupId session w Hidle) as Hrun.
  cbn [first_fault] in Hnone.
  destruct (faults w (Call "Group" "findOne")); [discriminate|].
  change (match faults w (Call "Group" "deleteOne") with
          | Some e0 => Some e0
          | None => first_fault (faults w)
                                [Call "GroupMember" "deleteMany";
                                 Call "GroupInvite" "deleteMany";
                                 Call "GroupApplication" "deleteMany"]
          end) with (first_fault (faults w) delete_steps) in Hnone.
  rewrite Hnone, Hcommit in Hrun.
  eexists. split; [exact Hrun|]. cbn [store logged].
  split; [reflexivity|]. split; [reflexivity|].
  now apply txn_state_closed.
Qed.

(** *** What create can do to the world, whatever fails *)

Lemma create_outcomes name createdBy appid w :
  let w' := snd (GroupService.create name createdBy appid w) in
  faults w' = faults w
  /\ clock w' = clock w
  /\ nextObjectId w <= nextObjectId w'
  /\ (exists t d, sessions w' = sessions w ++ [mkSession t d true]
                  /\ t <> InProgress)
  /\ (store w' = store w
      \/ (store w' = created_db w name createdBy appid
          /\ nextObjectId w' = S (S (S (nextObjectId w))))).
Proof.
  unfold GroupService.create. run_js.
  assert (HA : Aborted <> InProgress) by discriminate.
  assert (HC : Committed <> InProgress) by discriminate.
  destruct (faults w (Call "Group" "insertOne")); run_js.
  { repeat split; eauto. }
  destruct (existsb _ (Groups (store w))); run_js.
  { repeat split; eauto. }
  destruct (faults w (Call "GroupMember" "insertOne")); run_js.
  { repeat split; eauto. }
  destruct (existsb _ (GroupMembers (store w))); run_js.
  { repeat split; eauto. }
  destruct (faults w (Call "GroupApplication" "insertOne")); run_js.
  { repeat split; eauto. }
  destruct (existsb _ (GroupApplications (store w))); run_js.
  { repeat split; eauto. }
  destruct (faults w (Call "Group" "findOne")); run_js.
  { repeat split; eauto. }
  destruct (faults w CommitTransaction); run_js.
  { repeat split; eauto. }
  repeat split; eauto.
Qed.

Lemma flat_map_ext_in {A B} (f g : A -> list B) l :
  (forall a, In a l -> f a = g a) -> flat_map f l = flat_map g l.
Proof.
  induction l as [|a l IH]; simpl; intros H; [reflexivity|].
  rewrite (H a) by now left. f_equal. apply IH. intros x Hx. apply H. now right.
Qed.

Section AfterCreate.

Variable w : World.
Variables (name : string) (createdBy : ObjectId) (appid : option string).
Hypothesis Hgen : generator_ahead w = true.

Let n := nextObjectId w.
Let g := created_group w name createdBy appid.
Let owner := mkGroupMember (S n) n createdBy Owner.
Let db' := created_db w name createdBy appid.

Lemma old_group_ids x : In x (Groups (store w)) -> Nat.eqb n (g_id x) = false.
Proof.
  intros Hx. destruct (generated_before_spec _ _ Hgen) as [Hg _].
  apply Hg in Hx. apply Nat.eqb_neq. unfold n. lia.
Qed.

Lemma old_member_groups x :
  In x (GroupMembers (store w)) -> Nat.eqb n (m_groupId x) = false.
Proof.
  intros Hx. destruct (generated_before_spec _ _ Hgen) as [_ [Hm _]].
  apply Hm in Hx. apply Nat.eqb_neq. unfold n. lia.
Qed.

Lemma old_application_groups x :
  In x (GroupApplications (store w)) -> Nat.eqb n (a_groupId x) = false.
Proof.
  intros Hx. destruct (generated_before_spec _ _ Hgen) as [_ [_ [_ Ha]]].
  apply Ha in Hx. apply Nat.eqb_neq. unfold n. lia.
Qed.

Lemma old_invite_groups x :
  In x (GroupInvites (store w)) -> Nat.eqb n (i_groupId x) = false.
Proof.
  intros Hx. destruct (generated_before_spec _ _ Hgen) as [_ [_ [Hi _]]].
  apply Hi in Hx. apply Nat.eqb_neq. unfold n. lia.
Qed.

Lemma members_of_created gid :
  members_of db' gid
  = members_of (store w) gid ++ (if Nat.eqb gid n then [owner] else []).
Proof.
  unfold members_of, db', created_db. cbn [GroupMembers].
  now rewrite filter_app.
Qed.

Lemma members_of_old_group x :
  In x (Groups (store w)) ->
  members_of db' (g_id x) = members_of (store w) (g_id x).
Proof.
  intros Hx. rewrite members_of_created.
  rewrite (Nat.eqb_sym (g_id x) n), (old_group_ids x Hx). apply app_nil_r.
Qed.

Lemma members_of_new_group : members_of db' n = [owner].
Proof.
  rewrite members_of_created, Nat.eqb_refl.
  unfold members_of. now rewrite filter_none by apply old_member_groups.
Qed.

Lemma my_groups_after_create uid :
  my_groups db' uid
  = my_groups (store w) uid
      ++ (if Nat.eqb uid createdBy && is_plain g
          then [group_view g [("members", VArray [member_view owner])]]
          else []).
Proof.
  unfold my_groups.
  change (Groups db') with (Groups (store w) ++ [g]).
  change (GroupMembers db') with (GroupMembers (store w) ++ [owner]).
  rewrite filter_app, flat_map_app. f_equal.
  - apply flat_map_ext_in. intros m0 Hm0. apply filter_In in Hm0.
    destruct Hm0 as [Hm0 _].
    rewrite filter_app. cbn [filter].
    change (g_id g) with n.
    rewrite (Nat.eqb_sym (m_groupId m0) n), (old_member_groups m0 Hm0).
    cbn [andb]. rewrite app_nil_r. apply map_ext_in. intros g0 Hg0.
    apply filter_In in Hg0. destruct Hg0 as [Hg0 _].
    unfold members_view. now rewrite (members_of_old_group g0 Hg0).
  - cbn [filter]. change (m_uid owner) with createdBy.
    destruct (Nat.eqb uid createdBy); [|reflexivity].
    cbn [flat_map andb]. rewrite app_nil_r, filter_app.
    change (m_groupId owner) with n.
    rewrite filter_none.
    2:{ intros x Hx. now rewrite (old_group_ids x Hx). }
    cbn [filter app]. change (g_id g) with n.
    rewrite Nat.eqb_refl. cbn [andb].
    destruct (is_plain g); [|reflexivity]. cbn [map].
    unfold members_view. change (g_id g) with n.
    now rewrite members_of_new_group.
Qed.

Let record := mkGroupApplication (S (S n)) n (stored_optional appid).

Lemma app_groups_after_create a uid :
  app_groups db' a uid
  = app_groups (store w) a uid
      ++ (if has_appid a (stored_optional appid) && Nat.eqb createdBy uid
          then [role_view g owner]
          else []).
Proof.
  unfold app_groups.
  change (Groups db') with (Groups (store w) ++ [g]).
  change (GroupMembers db') with (GroupMembers (store w) ++ [owner]).
  change (GroupApplications db') with (GroupApplications (store w) ++ [record]).
  rewrite filter_app, flat_map_app. f_equal.
  - apply flat_map_ext_in. intros a0 Ha0. apply filter_In in Ha0.
    destruct Ha0 as [Ha0 _].
    rewrite (filter_app _ (Groups (store w))). cbn [filter].
    change (g_id g) with n.
    rewrite (Nat.eqb_sym (a_groupId a0) n), (old_application_groups a0 Ha0).
    rewrite app_nil_r. apply flat_map_ext_in. intros g0 _.
    rewrite filter_app. cbn [filter]. change (m_groupId owner) with n.
    rewrite (old_application_groups a0 Ha0). cbn [andb].
    now rewrite app_nil_r.
  - cbn [filter]. change (a_appid record) with (stored_optional appid).
    destruct (has_appid a (stored_optional appid)); [|reflexivity].
    cbn [flat_map andb]. rewrite app_nil_r.
    change (a_groupId record) with n.
    rewrite (filter_app _ (Groups (store w))),
      (filter_none (fun x => Nat.eqb n (g_id x)) (Groups (store w))).
    2:{ intros x Hx. now rewrite (old_group_ids x Hx). }
    cbn [filter app]. change (g_id g) with n. rewrite Nat.eqb_refl.
    cbn [flat_map]. rewrite app_nil_r, filter_app, filter_none.
    2:{ intros x Hx.
        rewrite (Nat.eqb_sym (m_groupId x) n), (old_member_groups x Hx).
        reflexivity. }
    cbn [filter app]. change (m_groupId owner) with n.
    change (m_uid owner) with createdBy. rewrite Nat.eqb_refl. cbn [andb].
    destruct (Nat.eqb createdBy uid); reflexivity.
Qed.

Lemma groups_with_role_after_create gid uid :
  groups_with_role db' gid uid
  = groups_with_role (store w) gid uid
      ++ (if Nat.eqb gid n && Nat.eqb uid createdBy
          then [role_view g owner]
          else []).
Proof.
  unfold groups_with_role.
  change (Groups db') with (Groups (store w) ++ [g]).
  change (GroupMembers db') with (GroupMembers (store w) ++ [owner]).
  rewrite filter_app, flat_map_app. f_equal.
  - apply flat_map_ext_in. intros m0 Hm0. apply filter_In in Hm0.
    destruct Hm0 as [Hm0 _].
    rewrite filter_app. cbn [filter]. change (g_id g) with n.
    rewrite (Nat.eqb_sym (m_groupId m0) n), (old_member_groups m0 Hm0).
    now rewrite app_nil_r.
  - cbn [filter]. change (m_groupId owner) with n.
    change (m_uid owner) with createdBy.
    destruct (Nat.eqb gid n && Nat.eqb uid createdBy); [|reflexivity].
    cbn [flat_map]. rewrite app_nil_r, filter_app, filter_none.
    2:{ intros x Hx. exact (old_group_ids x Hx). }
    cbn [filter app]. change (g_id g) with n. now rewrite Nat.eqb_refl.
Qed.

Lemma groups_with_role_fresh uid : groups_with_role (store w) n uid = [].
Proof.
  unfold groups_with_role. rewrite filter_none; [reflexivity|].
  intros x Hx. cbv beta. now rewrite (old_member_groups x Hx).
Qed.

Lemma deleted_after_created : deleted_db db' n = store w.
Proof.
  unfold deleted_db.
  change (Groups db') with (Groups (store w) ++ [g]).
  change (GroupMembers db') with (GroupMembers (store w) ++ [owner]).
  change (GroupInvites db') with (GroupInvites (store w)).
  change (GroupApplications db') with (GroupApplications (store w) ++ [record]).
  assert (Hg : remove_first (fun x => Nat.eqb n (g_id x)) (Groups (store w) ++ [g])
               = Groups (store w)).
  { pose proof old_group_ids as Hold.
    induction (Groups (store w)) as [|x l IH]; cbn [app remove_first].
    - change (g_id g) with n. now rewrite Nat.eqb_refl.
    - rewrite (Hold x) by now left. f_equal. apply IH.
      intros y Hy. apply Hold. now right. }
  rewrite Hg, !filter_app. cbn [filter].
  change (m_groupId owner) with n. change (a_groupId record) with n.
  rewrite Nat.eqb_refl. cbn [negb]. rewrite !app_nil_r.
  rewrite !filter_negb_all;
    [now destruct (store w)
    | apply old_application_groups | apply old_invite_groups
    | apply old_member_groups].
Qed.

Lemma find_created :
  find (fun x => Nat.eqb n (g_id x)) (Groups db') = Some g.
Proof.
  change (Groups db') with (Groups (store w) ++ [g]).
  apply find_snoc_fresh; [apply old_group_ids|].
  change (g_id g) with n. apply Nat.eqb_refl.
Qed.

End AfterCreate.

Lemma create_success name createdBy appid w :
  generator_ahead w = true ->
  first_fault (faults w) (create_steps ++ [CommitTransaction]) = None ->
  GroupService.create name createdBy appid w
  = (Return (Some (created_group w name createdBy appid)),
     mkWorld (created_db w name createdBy appid)
             (sessions w
                ++ [mkSession Committed (created_db w name createdBy appid) true])
             (clock w) (S (S (S (nextObjectId w)))) (logged w) (faults w)).
Proof.
  intros Hgen Hnone.
  pose proof (create_run name createdBy appid w Hgen) as Hrun.
  rewrite first_fault_app in Hnone.
  destruct (first_fault (faults w) create_steps); [discriminate|].
  simpl in Hnone. destruct (faults w CommitTransaction); [discriminate|].
  exact Hrun.
Qed.

(** Property X9.  After a [create] that returns group [g], [findOne] on
    its id returns [g], [findOneWithRole] for the creator returns the
    group with role Owner, and for any other user returns absent. *)
Theorem create_then_read_back
        (name : string) (createdBy : ObjectId) (appid : option string)
        (w : World) :
  generator_ahead w = true ->
  first_fault (faults w) (create_steps ++ [CommitTransaction]) = None ->
  faults w (Call "GroupMember" "aggregate") = None ->
  exists g w',
    GroupService.create name createdBy appid w = (Return (Some g), w')
    /\ GroupService.findOne (g_id g) None w' = (Return (Some g), w')
    /\ GroupService.findOneWithRole (g_id g) createdBy w'
       = (Return (Some (group_view g [("role", VString Owner)])), w')
    /\ (forall uid, uid <> createdBy ->
                    GroupService.findOneWithRole (g_id g) uid w'
                    = (Return None, w')).
Proof.
  intros Hgen Hnone Hagg.
  eexists _, _. split; [now apply create_success|].
  assert (Hfind : faults w (Call "Group" "findOne") = None).
  { rewrite first_fault_app in Hnone. cbn in Hnone.
    destruct (faults w (Call "Group" "insertOne")); [discriminate|].
    destruct (faults w (Call "GroupMember" "insertOne")); [discriminate|].
    destruct (faults w (Call "GroupApplication" "insertOne")); [discriminate|].
    destruct (faults w (Call "Group" "findOne")); [discriminate|reflexivity]. }
  split; [|split].
  - run_js. rewrite Hfind. run_js. rewrite find_by_id.
    cbn [g_id created_group].
    now rewrite (find_created w name createdBy appid Hgen).
  - rewrite findOneWithRole_run by assumption. cbn [store g_id created_group].
    rewrite (groups_with_role_after_create w name createdBy appid Hgen),
      (groups_with_role_fresh w Hgen), !Nat.eqb_refl.
    reflexivity.
  - intros uid Hneq.
    rewrite findOneWithRole_run by assumption. cbn [store g_id created_group].
    rewrite (groups_with_role_after_create w name createdBy appid Hgen),
      (groups_with_role_fresh w Hgen), Nat.eqb_refl.
    apply Nat.eqb_neq in Hneq. now rewrite Hneq.
Qed.

(** Property X10.  [create] changes the result of [findAll] in one way
    only: when [appid] is omitted, the creator's list gains the new group
    as its last row, with the creator as only member.  The list of every
    other user is unchanged, and with an [appid] nobody's list changes. *)
Theorem create_appends_one_row_to_the_creators_list
        (name : string) (createdBy : ObjectId) (appid : option string)
        (uid : ObjectId) (w : World) :
  generator_ahead w = true ->
  first_fault (faults w) (create_steps ++ [CommitTransaction]) = None ->
  faults w (Call "GroupMember" "aggregate") = None ->
  exists g w' rows,
    GroupService.create name createdBy appid w = (Return (Some g), w')
    /\ GroupService.findAll uid w = (Return rows, w)
    /\ GroupService.findAll uid w'
       = (Return
            (rows ++
             match appid with
             | None =>
                 if Nat.eqb uid createdBy
                 then [group_view g
                         [("members",
                           VArray [VDocument [("uid", VObjectId createdBy);
                                              ("role", VString Owner)]])]]
                 else []
             | Some _ => []
             end),
          w').
Proof.
  intros Hgen Hnone Hagg.
  eexists _, _, _. split; [now apply create_success|].
  split; [now apply findAll_run|].
  rewrite findAll_run by assumption. cbn [store].
  rewrite (my_groups_after_create w name createdBy appid Hgen).
  unfold is_plain. cbn [g_appid created_group].
  destruct appid as [a|]; cbn [stored_optional].
  - now rewrite andb_false_r.
  - now rewrite andb_true_r.
Qed.

(** Property X11.  [create] changes the result of
    [findGroupsByAppidAndUid a uid] in one way only: when the group is
    created under that [a] by that [uid], the list gains the new group as
    its last row, with role Owner. *)
Theorem create_appends_one_row_to_the_application_list
        (name : string) (createdBy : ObjectId) (appid : option string)
        (a : string) (uid : ObjectId) (w : World) :
  generator_ahead w = true ->
  first_fault (faults w) (create_steps ++ [CommitTransaction]) = None ->
  faults w (Call "GroupApplication" "aggregate") = None ->
  exists g w' rows,
    GroupService.create name createdBy appid w = (Return (Some g), w')
    /\ GroupService.findGroupsByAppidAndUid a uid w = (Return rows, w)
    /\ GroupService.findGroupsByAppidAndUid a uid w'
       = (Return
            (rows ++
             match appid with
             | Some a' =>
                 if String.eqb a a' && Nat.eqb createdBy uid
                 then [group_view g [("role", VString Owner)]]
                 else []
             | None => []
             end),
          w').
Proof.
  intros Hgen Hnone Hagg.
  eexists _, _, _. split; [now apply create_success|].
  split; [now apply findGroupsByAppidAndUid_run|].
  rewrite findGroupsByAppidAndUid_run by assumption. cbn [store].
  rewrite (app_groups_after_create w name createdBy appid Hgen).
  destruct appid as [a'|]; reflexivity.
Qed.

(** Property X12.  Deleting a group right after creating it returns that
    group and leaves the committed database exactly as it was before
    the creation. *)
Theorem create_then_delete_restores_the_store
        (name : string) (createdBy : ObjectId) (appid : option string)
        (w : World) :
  generator_ahead w = true ->
  first_fault (faults w) (create_steps ++ [CommitTransaction]) = None ->
  first_fault (faults w) delete_steps = None ->
  exists g w' w'',
    GroupService.create name createdBy appid w = (Return (Some g), w')
    /\ GroupService.delete (g_id g) None w' = (Return (Some g), w'')
    /\ store w'' = store w.
Proof.
  intros Hgen Hnone Hdel.
  eexists _, _, _. split; [now apply create_success|].
  match goal with |- GroupService.delete ?i None ?W = _ /\ _ =>
    pose proof (delete_run i None W eq_refl) as Hrun
  end.
  cbn [faults store] in Hrun.
  rewrite first_fault_app in Hnone. rewrite Hdel in Hrun.
  cbn in Hnone.
  destruct (faults w (Call "Group" "insertOne")); [discriminate|].
  destruct (faults w (Call "GroupMember" "insertOne")); [discriminate|].
  destruct (faults w (Call "GroupApplication" "insertOne")); [discriminate|].
  destruct (faults w (Call "Group" "findOne")); [discriminate|].
  destruct (faults w CommitTransaction); [discriminate|].
  cbn [g_id created_group] in *.
  rewrite (find_created w name createdBy appid Hgen) in Hrun.
  rewrite (deleted_after_created w name createdBy appid Hgen) in Hrun.
  split; [exact Hrun|reflexivity].
Qed.

(** *** Create and the quota count *)

(** Property X13.  Whatever the arguments and whatever fails, [create]
    leaves [countGroups uid] unchanged for every user: the document it
    inserts always carries the [appid] key, and [countGroups] counts
    only documents without it. *)
Theorem create_never_changes_countGroups
        (name : string) (createdBy uid : ObjectId) (appid : option string)
        (w : World) :
  faults w (Call "Group" "countDocuments") = None ->
  fst (GroupService.countGroups uid
         (snd (GroupService.create name createdBy appid w)))
  = fst (GroupService.countGroups uid w).
Proof.
  intros Hc.
  destruct (create_outcomes name createdBy appid w)
    as [Hf [_ [_ [_ Hstore]]]].
  rewrite !countGroups_run by congruence. cbn [fst]. f_equal. f_equal.
  destruct Hstore as [->|[-> _]]; [reflexivity|].
  cbn [created_db Groups]. rewrite filter_app. cbn [filter].
  replace (counted uid (created_group w name createdBy appid)) with false.
  - now rewrite app_nil_r.
  - unfold counted. cbn [g_appid created_group].
    destruct appid; cbn [stored_optional]; now rewrite andb_false_r.
Qed.

(** *** Create keeps the keys of the data model unique *)

Lemma generated_before_mono n m db :
  n <= m -> generated_before n db = true -> generated_before m db = true.
Proof.
  intros Hle H. destruct (generated_before_spec _ _ H) as [Hg [Hm [Hi Ha]]].
  unfold generated_before.
  rewrite !andb_true_iff, !forallb_forall.
  repeat split; intros x Hx;
    rewrite ?andb_true_iff, ?Nat.ltb_lt;
    [apply Hg in Hx | apply Hm in Hx | apply Hi in Hx | apply Ha in Hx]; lia.
Qed.

Lemma NoDup_snoc {A} (l : list A) a : NoDup l -> ~ In a l -> NoDup (l ++ [a]).
Proof.
  intros Hl Ha. apply NoDup_app; [assumption|repeat constructor; auto|].
  intros x Hx [<-|[]]. contradiction.
Qed.

(** Property X14.  [create] keeps the keys of the data model: if group
    ids, (groupId, uid) pairs and (groupId, appid) pairs are unique and
    the generator is ahead of every stored id, the same holds after
    [create], whatever fails. *)
Theorem create_keeps_keys_unique
        (name : string) (createdBy : ObjectId) (appid : option string)
        (w : World) :
  generator_ahead w = true ->
  NoDup (map g_id (Groups (store w))) ->
  NoDup (map (fun m => (m_groupId m, m_uid m)) (GroupMembers (store w))) ->
  NoDup (map (fun a => (a_groupId a, a_appid a)) (GroupApplications (store w))) ->
  let w' := snd (GroupService.create name createdBy appid w) in
  generator_ahead w' = true
  /\ NoDup (map g_id (Groups (store w')))
  /\ NoDup (map (fun m => (m_groupId m, m_uid m)) (GroupMembers (store w')))
  /\ NoDup (map (fun a => (a_groupId a, a_appid a))
                (GroupApplications (store w'))).
Proof.
  intros Hgen Hg Hm Ha w'.
  destruct (create_outcomes name createdBy appid w)
    as [_ [_ [Hle [_ Hstore]]]].
  fold w' in Hle, Hstore.
  destruct (generated_before_spec _ _ Hgen) as [Sg [Sm [Si Sa]]].
  unfold generator_ahead.
  destruct Hstore as [Hs|[Hs Hn]]; rewrite Hs.
  - split; [|auto]. now apply generated_before_mono with (n := nextObjectId w).
  - rewrite Hn. cbn [created_db Groups GroupMembers GroupApplications].
    split; [|split; [|split]].
    + unfold generated_before.
      cbn [created_db Groups GroupMembers GroupInvites GroupApplications].
      rewrite !forallb_app. cbn [forallb g_id created_group m_id m_groupId
                                  a_id a_groupId].
      rewrite !andb_true_iff, !forallb_forall.
      repeat split; try (intros x Hx);
        rewrite ?andb_true_iff, ?Nat.ltb_lt;
        try (apply Sg in Hx); try (apply Sm in Hx);
        try (apply Si in Hx); try (apply Sa in Hx); lia.
    + rewrite map_app. apply NoDup_snoc; [assumption|].
      intros Hin. apply in_map_iff in Hin. destruct Hin as [x [Hx Hin]].
      apply Sg in Hin. cbn [map g_id created_group] in Hx. lia.
    + rewrite map_app. apply NoDup_snoc; [assumption|].
      intros Hin. apply in_map_iff in Hin. destruct Hin as [x [Hx Hin]].
      apply Sm in Hin. cbn [m_groupId m_uid] in Hx. inversion Hx. lia.
    + rewrite map_app. apply NoDup_snoc; [assumption|].
      intros Hin. apply in_map_iff in Hin. destruct Hin as [x [Hx Hin]].
      apply Sa in Hin. cbn [a_groupId a_appid] in Hx. inversion Hx. lia.
Qed.

(** *** What delete can do to the world, whatever the session and the faults *)

Lemma delete_outcomes groupId session w :
  let w' := snd (GroupService.delete groupId session w) in
  faults w' = faults w
  /\ nextObjectId w' = nextObjectId w
  /\ (store w' = store w \/ store w' = deleted_db (store w) groupId).
Proof.
  destruct (idle w session) eqn:Hidle.
  - pose proof (delete_run groupId session w Hidle) as Hrun.
    destruct (faults w (Call "Group" "findOne")).
    { rewrite Hrun. destruct session; cbn; auto. }
    destruct (first_fault (faults w) delete_steps).
    { destruct Hrun as [d Hrun]. rewrite Hrun. cbn. auto. }
    destruct (faults w CommitTransaction); rewrite Hrun; cbn; auto.
  - destruct session as [s|]; [|discriminate].
    unfold idle in Hidle. unfold GroupService.delete.
    destruct (nth_error (sessions w) s) as [[t d en]|] eqn:Hs.
    + simpl in Hidle. destruct en.
      * run_borrowed Hs.
        destruct (faults w (Call "Group" "findOne")); run_borrowed Hs;
          cbn; auto.
      * destruct t; try discriminate. run_borrowed Hs.
        destruct (faults w (Call "Group" "findOne")); run_borrowed Hs;
          cbn; auto.
    + run_borrowed Hs.
      destruct (faults w (Call "Group" "findOne")); run_borrowed Hs;
        cbn; auto.
Qed.

Lemma filter_remove_first_other {A} (k : A -> nat) (n m : nat) l :
  m <> n ->
  filter (fun a => Nat.eqb m (k a))
         (remove_first (fun a => Nat.eqb n (k a)) l)
  = filter (fun a => Nat.eqb m (k a)) l.
Proof.
  intros Hneq. induction l as [|a l IH]; cbn [remove_first filter];
    [reflexivity|].
  destruct (Nat.eqb n (k a)) eqn:Hn.
  - apply Nat.eqb_eq in Hn.
    assert (Hm : Nat.eqb m (k a) = false) by (apply Nat.eqb_neq; congruence).
    now rewrite Hm.
  - cbn [filter]. now rewrite IH.
Qed.

Lemma filter_filter_other {A} (k : A -> nat) (n m : nat) l :
  m <> n ->
  filter (fun a => Nat.eqb m (k a))
         (filter (fun a => negb (Nat.eqb n (k a))) l)
  = filter (fun a => Nat.eqb m (k a)) l.
Proof.
  intros Hneq. rewrite filter_filter. apply filter_ext. intros a.
  destruct (Nat.eqb m (k a)) eqn:Hm; [|now rewrite andb_false_r].
  apply Nat.eqb_eq in Hm.
  assert (Hn : Nat.eqb n (k a) = false) by (apply Nat.eqb_neq; congruence).
  now rewrite Hn.
Qed.

(** Property X15.  Whatever the session and whatever fails,
    [delete groupId] leaves the rows of every other group as they were,
    in all four collections. *)
Theorem delete_never_touches_other_groups
        (groupId other : ObjectId) (session : option SessionRef) (w : World) :
  other <> groupId ->
  let w' := snd (GroupService.delete groupId session w) in
  groups_by_id (store w') other = groups_by_id (store w) other
  /\ members_of (store w') other = members_of (store w) other
  /\ invites_of (store w') other = invites_of (store w) other
  /\ applications_of (store w') other = applications_of (store w) other.
Proof.
  intros Hneq w'.
  destruct (delete_outcomes groupId session w) as [_ [_ Hstore]].
  fold w' in Hstore. destruct Hstore as [->| ->]; [auto|].
  unfold groups_by_id, members_of, invites_of, applications_of, deleted_db.
  cbn [Groups GroupMembers GroupInvites GroupApplications].
  split; [now apply filter_remove_first_other|].
  repeat split; now apply filter_filter_other.
Qed.

Lemma NoDup_map_remove_first {A K} (k : A -> K) (p : A -> bool) l :
  NoDup (map k l) -> NoDup (map k (remove_first p l)).
Proof.
  induction l as [|a l IH]; cbn [remove_first map]; intros Hnd; [constructor|].
  inversion Hnd as [|? ? Hnotin Hnd']; subst.
  destruct (p a); [assumption|]. cbn [map]. constructor; [|now apply IH].
  intros Hin. apply Hnotin. apply in_map_iff in Hin.
  destruct Hin as [x [Hx Hin]]. apply in_map_iff. exists x. split; [assumption|].
  clear - Hin. induction l as [|y l IH]; cbn [remove_first] in Hin;
    [destruct Hin|].
  destruct (p y); [now right|]. destruct Hin as [<-|Hin]; [now left|].
  right. now apply IH.
Qed.

Lemma generated_before_deleted n db groupId :
  generated_before n db = true -> generated_before n (deleted_db db groupId) = true.
Proof.
  intros H. destruct (generated_before_spec _ _ H) as [Hg [Hm [Hi Ha]]].
  unfold generated_before, deleted_db.
  cbn [Groups GroupMembers GroupInvites GroupApplications].
  rewrite !andb_true_iff, !forallb_forall.
  repeat split; intros x Hx; rewrite ?andb_true_iff, ?Nat.ltb_lt.
  - apply Hg. clear - Hx.
    induction (Groups db) as [|y l IH]; cbn [remove_first] in Hx;
      [destruct Hx|].
    destruct (Nat.eqb groupId (g_id y)); [now right|].
    destruct Hx as [<-|Hx]; [now left|]. right. now apply IH.
  - apply filter_In in Hx. apply Hm. tauto.
  - apply filter_In in Hx. apply Hi. tauto.
  - apply filter_In in Hx. apply Ha. tauto.
Qed.

(** Property X16.  [delete] keeps the keys of the data model unique and
    the generator ahead of every stored id, whatever the session and
    whatever fails. *)
Theorem delete_keeps_keys_unique
        (groupId : ObjectId) (session : option SessionRef) (w : World) :
  generator_ahead w = true ->
  NoDup (map g_id (Groups (store w))) ->
  NoDup (map (fun m => (m_groupId m, m_uid m)) (GroupMembers (store w))) ->
  NoDup (map (fun a => (a_groupId a, a_appid a)) (GroupApplications (store w))) ->
  let w' := snd (GroupService.delete groupId session w) in
  generator_ahead w' = true
  /\ NoDup (map g_id (Groups (store w')))
  /\ NoDup (map (fun m => (m_groupId m, m_uid m)) (GroupMembers (store w')))
  /\ NoDup (map (fun a => (a_groupId a, a_appid a))
                (GroupApplications (store w'))).
Proof.
  intros Hgen Hg Hm Ha w'.
  destruct (delete_outcomes groupId session w) as [_ [Hn Hstore]].
  fold w' in Hn, Hstore. unfold generator_ahead in *. rewrite Hn.
  destruct Hstore as [->| ->]; [auto|].
  split; [now apply generated_before_deleted|].
  unfold deleted_db. cbn [Groups GroupMembers GroupApplications].
  split; [now apply NoDup_map_remove_first|].
  split.
  - apply NoDup_map_filter with (k := fun m => (m_groupId m, m_uid m));
      [assumption|auto].
  - apply NoDup_map_filter with (k := fun a => (a_groupId a, a_appid a));
      [assumption|auto].
Qed.

(** *** After a delete, the reads find nothing *)

(** Property X17.  After a [delete] that returned, [findOne] and
    [findOneWithRole] (for any user) return absent for the group id, and
    no row of [findAll] or [findGroupsByAppidAndUid] carries that id. *)
Theorem delete_then_reads_find_nothing
        (groupId : ObjectId) (session : option SessionRef) (w w' : World)
        (res : option Group) :
  NoDup (map g_id (Groups (store w))) ->
  GroupService.delete groupId session w = (Return res, w') ->
  faults w (Call "GroupMember" "aggregate") = None ->
  faults w (Call "GroupApplication" "aggregate") = None ->
  GroupService.findOne groupId None w' = (Return None, w')
  /\ (forall uid,
         GroupService.findOneWithRole groupId uid w' = (Return None, w'))
  /\ (forall uid,
         exists rows,
           GroupService.findAll uid w' = (Return rows, w')
           /\ ~ In (Some (VObjectId groupId)) (map row_id rows))
  /\ (forall appid uid,
         exists rows,
           GroupService.findGroupsByAppidAndUid appid uid w' = (Return rows, w')
           /\ ~ In (Some (VObjectId groupId)) (map row_id rows)).
Proof.
  intros Hnd Hdel Hm Ha.
  destruct (delete_success_idle _ _ _ Hdel) as [Hidle Hpre].
  pose proof (delete_run groupId session w Hidle) as Hrun.
  rewrite Hpre in Hrun.
  destruct (first_fault (faults w) delete_steps) as [e|].
  { destruct Hrun as [d Hrun]. rewrite Hrun in Hdel. discriminate. }
  destruct (faults w CommitTransaction) as [e|].
  { rewrite Hrun in Hdel. discriminate. }
  rewrite Hrun in Hdel. inversion Hdel as [[Hres Hw']]. clear Hdel Hrun.
  destruct (deleted_rows (store w) groupId Hnd) as [Dg _].
  assert (Hgone : forall g, In g (Groups (deleted_db (store w) groupId)) ->
                            g_id g <> groupId).
  { intros g Hg Hid.
    assert (Hin : In g (groups_by_id (deleted_db (store w) groupId) groupId)).
    { apply filter_In. split; [assumption|]. apply Nat.eqb_eq. congruence. }
    rewrite Dg in Hin. destruct Hin. }
  split; [|split; [|split]].
  - run_js. rewrite Hpre. run_js. rewrite find_by_id.
    rewrite find_none_all; [reflexivity|].
    intros g Hg. apply Nat.eqb_neq. intros Heq. now apply (Hgone g Hg).
  - intros uid. rewrite findOneWithRole_run by assumption. cbn [store].
    destruct (groups_with_role (deleted_db (store w) groupId) groupId uid)
      as [|row rows] eqn:Hrows; [reflexivity|].
    assert (Hin : In row (groups_with_role (deleted_db (store w) groupId)
                                           groupId uid))
      by (rewrite Hrows; now left).
    apply groups_with_role_In in Hin.
    destruct Hin as [m [g [_ [Hg [_ [_ [Hid _]]]]]]].
    exfalso. now apply (Hgone g Hg).
  - intros uid. eexists. split; [now apply findAll_run|]. cbn [store].
    intros Hin. apply in_map_iff in Hin. destruct Hin as [row [Hid Hrow]].
    apply my_groups_In in Hrow. destruct Hrow as [g [Hg [_ [_ Hrow]]]].
    subst row. unfold row_id, members_view in Hid. simpl in Hid.
    inversion Hid. now apply (Hgone g Hg).
  - intros appid uid. eexists.
    split; [now apply findGroupsByAppidAndUid_run|]. cbn [store].
    intros Hin. apply in_map_iff in Hin. destruct Hin as [row [Hid Hrow]].
    apply app_groups_In in Hrow.
    destruct Hrow as [a [g [m [_ [_ [Hg [_ [_ [_ [_ Hrow]]]]]]]]]].
    subst row. unfold row_id, role_view in Hid. simpl in Hid.
    inversion Hid. now apply (Hgone g Hg).
Qed.

(** *** Update *)

Lemma set_fields_idempotent upd g :
  set_fields upd (set_fields upd g) = set_fields upd g.
Proof.
  destruct upd as [pn pa pcb pca pua], g as [i n a cb ca ua].
  unfold set_fields. cbn.
  destruct pn, pa, pcb, pca, pua; reflexivity.
Qed.

Lemma find_update_first {A} (p : A -> bool) (f : A -> A) l a :
  (forall x, p (f x) = p x) ->
  find p l = Some a -> find p (update_first p f l) = Some (f a).
Proof.
  intros Hp. induction l as [|x l IH]; cbn [find update_first]; [discriminate|].
  destruct (p x) eqn:Hpx.
  - intros H. inversion H; subst. cbn [find]. now rewrite Hp, Hpx.
  - intros H. cbn [find]. rewrite Hpx. now apply IH.
Qed.

Lemma update_first_idempotent {A} (p : A -> bool) (f : A -> A) l :
  (forall x, p (f x) = p x) -> (forall x, f (f x) = f x) ->
  update_first p f (update_first p f l) = update_first p f l.
Proof.
  intros Hp Hf. induction l as [|x l IH]; cbn [update_first]; [reflexivity|].
  destruct (p x) eqn:Hpx; cbn [update_first].
  - now rewrite Hp, Hpx, Hf.
  - now rewrite Hpx, IH.
Qed.

(** Property X18.  Repeating an [update] with the same fields at the same
    time returns the same document and changes nothing further. *)
Theorem update_twice_is_update_once
        (groupId : ObjectId) (dto : PartialGroup) (w : World) :
  faults w (Call "Group" "findOneAndUpdate") = None ->
  GroupService.update groupId dto (snd (GroupService.update groupId dto w))
  = GroupService.update groupId dto w.
Proof.
  intros Hf.
  assert (Hp : forall x,
             selects GroupC (GroupService.by_id groupId)
                     (set_fields (spread_updatedAt dto (clock w)) x)
             = selects GroupC (GroupService.by_id groupId) x).
  { intros x. now rewrite !selects_by_id. }
  unfold GroupService.update. run_js. rewrite Hf. run_js.
  destruct (find (selects GroupC (GroupService.by_id groupId))
                 (Groups (store w))) as [g|] eqn:Hfind; run_js.
  - rewrite Hf. run_js.
    rewrite (@find_update_first _ _ _ _ _ Hp Hfind). run_js.
    rewrite update_first_idempotent, set_fields_idempotent;
      [reflexivity|exact Hp|intros x; apply set_fields_idempotent].
  - rewrite Hf. run_js. rewrite Hfind. reflexivity.
Qed.

Lemma update_first_other {A} (p : A -> bool) (f : A -> A) l x :
  In x (update_first p f l) -> In x l \/ exists a, In a l /\ p a = true /\ x = f a.
Proof.
  induction l as [|y l IH]; cbn [update_first]; [intros []|].
  destruct (p y) eqn:Hpy.
  - intros [<-|Hin]; [right; exists y; repeat split; auto; now left|].
    left. now right.
  - intros [<-|Hin]; [left; now left|].
    destruct (IH Hin) as [H|[a [Ha [Hpa Hx]]]]; [left; now right|].
    right. exists a. repeat split; auto. now right.
Qed.

(** Property X19.  [update] can set [appid]: once it has, the group is
    in nobody's [findAll] list any more. *)
Theorem update_with_appid_hides_the_group_from_findAll
        (groupId uid : ObjectId) (a : string) (dto : PartialGroup) (w : World) :
  p_appid dto = Some (Some a) ->
  NoDup (map g_id (Groups (store w))) ->
  faults w (Call "Group" "findOneAndUpdate") = None ->
  faults w (Call "GroupMember" "aggregate") = None ->
  (exists g, In g (Groups (store w)) /\ g_id g = groupId) ->
  let w' := snd (GroupService.update groupId dto w) in
  exists rows,
    GroupService.findAll uid w' = (Return rows, w')
    /\ ~ In (Some (VObjectId groupId)) (map row_id rows).
Proof.
  intros Happ Hnd Hf Hagg [g0 [Hg0 Hid0]] w'.
  assert (Hfind : find (selects GroupC (GroupService.by_id groupId))
                       (Groups (store w)) = Some g0).
  { rewrite find_by_id. now apply find_some_first. }
  destruct (@update_first_split _ (selects GroupC (GroupService.by_id groupId))
              (set_fields (spread_updatedAt dto (clock w))) _ _ Hfind)
    as [before [after [Hsplit [Hbefore Hupd]]]].
  assert (Hw' : faults w' = faults w
                /\ Groups (store w')
                   = before ++ set_fields (spread_updatedAt dto (clock w)) g0
                              :: after).
  { unfold w', GroupService.update. run_js. rewrite Hf. run_js.
    rewrite Hfind. run_js. cbn [snd faults store Groups]. auto. }
  destruct Hw' as [Hfw' Hgs'].
  eexists. split; [apply findAll_run; congruence|].
  intros Hin. apply in_map_iff in Hin. destruct Hin as [row [Hid Hrow]].
  apply my_groups_In in Hrow. destruct Hrow as [g [Hg [Hplain [_ Hrow]]]].
  subst row. unfold row_id, members_view in Hid. simpl in Hid.
  inversion Hid as [Hgid]. clear Hid.
  rewrite Hgs' in Hg. rewrite Hsplit, map_app in Hnd. cbn [map] in Hnd.
  apply in_app_or in Hg. destruct Hg as [Hg|[Hg|Hg]].
  - apply Hbefore in Hg. rewrite selects_by_id in Hg.
    apply Nat.eqb_neq in Hg. congruence.
  - subst g. cbn [set_fields g_appid spread_updatedAt p_appid] in Hplain.
    rewrite Happ in Hplain. cbn in Hplain. destruct Hplain; discriminate.
  - apply NoDup_remove_2 in Hnd. apply Hnd. apply in_or_app. right.
    replace (g_id g0) with (g_id g) by congruence. now apply in_map.
Qed.

(** *** Consistency between the read queries *)

(** Property X20.  Every row returned by [findAll uid] lists [uid] among
    its members. *)
Theorem findAll_rows_contain_the_caller (w : World) (uid : ObjectId) :
  faults w (Call "GroupMember" "aggregate") = None ->
  exists rows,
    GroupService.findAll uid w = (Return rows, w)
    /\ forall row,
         In row rows ->
         exists members role,
           get "members" row = Some (VArray members)
           /\ In (VDocument [("uid", VObjectId uid); ("role", VString role)])
                 members.
Proof.
  intros Hf. eexists. split; [now apply findAll_run|].
  intros row Hrow. apply my_groups_In in Hrow.
  destruct Hrow as [g [_ [_ [[m [Hm [Hg Hu]]] Hrow]]]]. subst row.
  eexists _, (m_role m). split; [reflexivity|].
  apply in_map_iff. exists m. split; [unfold member_view; now rewrite Hu|].
  apply members_of_In. auto.
Qed.

(** Property X21.  Every group listed by [findAll uid] is found by
    [findOneWithRole] for the same user. *)
Theorem findAll_rows_resolve_in_findOneWithRole (w : World) (uid : ObjectId) :
  faults w (Call "GroupMember" "aggregate") = None ->
  exists rows,
    GroupService.findAll uid w = (Return rows, w)
    /\ forall groupId,
         In (Some (VObjectId groupId)) (map row_id rows) ->
         exists row',
           GroupService.findOneWithRole groupId uid w = (Return (Some row'), w)
           /\ row_id row' = Some (VObjectId groupId).
Proof.
  intros Hf. eexists. split; [now apply findAll_run|].
  intros groupId Hin. apply in_map_iff in Hin. destruct Hin as [row [Hid Hrow]].
  apply my_groups_In in Hrow.
  destruct Hrow as [g [Hg [_ [[m [Hm [Hmg Hu]]] Hrow]]]]. subst row.
  unfold row_id, members_view in Hid. simpl in Hid.
  assert (Hgid : g_id g = groupId) by congruence. clear Hid.
  rewrite findOneWithRole_run by assumption.
  destruct (groups_with_role (store w) groupId uid) as [|row' rows'] eqn:Hrows.
  - assert (Hin : In (role_view g m) (groups_with_role (store w) groupId uid)).
    { apply groups_with_role_In. exists m, g. repeat split; auto; congruence. }
    rewrite Hrows in Hin. destruct Hin.
  - exists row'. split; [reflexivity|].
    assert (Hin : In row' (groups_with_role (store w) groupId uid))
      by (rewrite Hrows; now left).
    apply groups_with_role_In in Hin.
    destruct Hin as [m' [g' [_ [_ [_ [_ [Hid' Hrow']]]]]]]. subst row'.
    unfold row_id, role_view. simpl. now rewrite Hid'.
Qed.

(** *** Sessions of create *)

(** Property X22.  Whatever fails, [create] leaves the sessions of the
    client as they were and adds exactly one: its own, ended, with no
    transaction in progress. *)
Theorem create_touches_only_its_own_session
        (name : string) (createdBy : ObjectId) (appid : option string)
        (w : World) :
  exists t d,
    sessions (snd (GroupService.create name createdBy appid w))
    = sessions w ++ [mkSession t d true]
    /\ t <> InProgress.
Proof.
  destruct (create_outcomes name createdBy appid w) as [_ [_ [_ [H _]]]].
  exact H.
Qed.

(** *** Sessions of delete *)

Lemma nth_error_replace_nth_other {A} (l : list A) s s' x :
  s' <> s -> nth_error (replace_nth s x l) s' = nth_error l s'.
Proof.
  revert s s'. induction l as [|a l IH]; intros [|s] [|s'] Hneq;
    cbn [replace_nth nth_error]; try reflexivity; try congruence.
  apply IH. congruence.
Qed.

Lemma ended_after_replace w s t d st c n lg f s' :
  ended w s = Some false ->
  ended (mkWorld st (replace_nth s (mkSession t d false) (sessions w)) c n lg f)
        s'
  = ended w s'.
Proof.
  unfold ended. cbn [sessions]. intros Hs.
  destruct (Nat.eq_dec s' s) as [->|Hneq].
  - destruct (nth_error (sessions w) s) as [ss|] eqn:Hn; [|discriminate].
    rewrite (@nth_error_replace_nth _ _ _ _ _ Hn). exact (eq_sym Hs).
  - now rewrite nth_error_replace_nth_other.
Qed.

(** Property X23.  Given a session by its caller, [delete] neither
    starts nor ends any session, whatever the state of that session and
    whatever fails. *)
Theorem delete_never_ends_a_session_it_was_given
        (groupId : ObjectId) (s : SessionRef) (w : World) :
  let w' := snd (GroupService.delete groupId (Some s) w) in
  List.length (sessions w') = List.length (sessions w)
  /\ forall s', ended w' s' = ended w s'.
Proof.
  assert (Hlen : forall (x : Session) l n,
             List.length (replace_nth n x l) = List.length l).
  { intros x l. induction l as [|a l IH]; intros [|n];
      cbn [replace_nth List.length]; auto. }
  destruct (idle w (Some s)) eqn:Hidle.
  - pose proof (delete_run groupId (Some s) w Hidle) as Hrun.
    assert (Hw : ended w s = Some false).
    { unfold idle in Hidle. unfold ended.
      destruct (nth_error (sessions w) s) as [[t d en]|]; [|discriminate].
      simpl in Hidle. now destruct en. }
    destruct (faults w (Call "Group" "findOne")).
    { rewrite Hrun. cbn. auto. }
    destruct (first_fault (faults w) delete_steps).
    { destruct Hrun as [d' Hrun]. rewrite Hrun. cbn [snd close_session sessions].
      split; [apply Hlen|]. intros s'. now apply ended_after_replace. }
    destruct (faults w CommitTransaction); rewrite Hrun;
      cbn [snd close_session sessions];
      (split; [apply Hlen|]; intros s'; now apply ended_after_replace).
  - unfold idle in Hidle. unfold GroupService.delete.
    destruct (nth_error (sessions w) s) as [[t d en]|] eqn:Hs.
    + simpl in Hidle. destruct en.
      * run_borrowed Hs.
        destruct (faults w (Call "Group" "findOne")); run_borrowed Hs;
          cbn; auto.
      * destruct t; try discriminate. run_borrowed Hs.
        assert (Hw : ended w s = Some false)
          by (unfold ended; now rewrite Hs).
        destruct (faults w (Call "Group" "findOne")); run_borrowed Hs;
          cbn [snd sessions]; [auto|].
        split; [apply Hlen|]. intros s'. now apply ended_after_replace.
    + run_borrowed Hs.
      destruct (faults w (Call "Group" "findOne")); run_borrowed Hs;
        cbn; auto.
Qed.

(** Property X24.  Called without a session, and once its first read has
    succeeded, [delete] leaves the sessions of the client as they were
    and adds exactly one: its own, ended, with no transaction in
    progress, whatever fails afterwards. *)
Theorem delete_ends_the_session_it_started
        (groupId : ObjectId) (w : World) :
  faults w (Call "Group" "findOne") = None ->
  exists t d,
    sessions (snd (GroupService.delete groupId None w))
    = sessions w ++ [mkSession t d true]
    /\ t <> InProgress.
Proof.
  intros Hpre.
  pose proof (delete_run groupId None w eq_refl) as Hrun.
  rewrite Hpre in Hrun.
  destruct (first_fault (faults w) delete_steps).
  - destruct Hrun as [d Hrun]. rewrite Hrun. cbn [snd sessions close_session].
    eexists _, _. split; [reflexivity|discriminate].
  - destruct (faults w CommitTransaction); rewrite Hrun;
      cbn [snd sessions close_session];
      (eexists _, _; split; [reflexivity|discriminate]).
Qed.

(* ===================================================================== *)
(** ** The further properties at the sample worlds *)
(* ===================================================================== *)

Lemma findAll_flattens_storage_errors_witness :
  faults w_unreachable (Call "GroupMember" "aggregate") = Some (StorageError 3)
  /\ fst (GroupService.findAll 10 w_unreachable)
     = Throw (JsError "Failed to get group members").
Proof.
  split; [reflexivity|].
  now rewrite (findAll_flattens_storage_errors w_unreachable 10 (StorageError 3) eq_refl).
Defined.

Lemma findGroupsByAppidAndUid_flattens_storage_errors_witness :
  faults w_unreachable (Call "GroupApplication" "aggregate")
  = Some (StorageError 3)
  /\ fst (GroupService.findGroupsByAppidAndUid "app-1" 10 w_unreachable)
     = Throw (JsError "Failed to get groups data").
Proof.
  split; [reflexivity|].
  now rewrite (findGroupsByAppidAndUid_flattens_storage_errors
                 w_unreachable "app-1" 10 (StorageError 3) eq_refl).
Defined.


Lemma findGroupByAppid_first_group_of_application_witness :
  faults w0 (Call "Group" "findOne") = None
  /\ exists res, GroupService.findGroupByAppid "app-1" w0 = (Return res, w0).
Proof.
  split; [reflexivity|].
  destruct (findGroupByAppid_first_group_of_application w0 "app-1" eq_refl)
    as [res [H _]].
  exists res. exact H.
Defined.


Lemma delete_aborts_the_callers_open_transaction_witness :
  nth_error (sessions w_in_transaction) 0
  = Some (mkSession InProgress db0 false)
  /\ faults w_in_transaction (Call "Group" "findOne") = None
  /\ exists w',
       GroupService.delete 1 (Some 0) w_in_transaction
       = (Throw (TransactionError "Transaction already in progress"), w')
       /\ nth_error (sessions w') 0 = Some (mkSession Aborted db0 false).
Proof.
  split; [reflexivity|]. split; [reflexivity|].
  destruct (delete_aborts_the_callers_open_transaction
              1 0 db0 w_in_transaction eq_refl eq_refl)
    as [w' [Hd [_ [Hs _]]]].
  exists w'. split; assumption.
Defined.


Lemma delete_commit_failure_is_masked_by_the_abort_witness :
  idle w_commit_fails None = true
  /\ first_fault (faults w_commit_fails)
                 (Call "Group" "findOne" :: delete_steps) = None
  /\ faults w_commit_fails CommitTransaction = Some (StorageError 4)
  /\ exists w',
       GroupService.delete 1 None w_commit_fails
       = (Throw (TransactionError
                   "Cannot call abortTransaction after calling commitTransaction"),
          w')
       /\ store w' = store w_commit_fails.
Proof.
  repeat (split; [reflexivity|]).
  destruct (delete_commit_failure_is_masked_by_the_abort
              1 None w_commit_fails (StorageError 4) eq_refl eq_refl eq_refl)
    as [w' [Hd [Hs _]]].
  exists w'. split; assumption.
Defined.

Lemma create_then_read_back_witness :
  generator_ahead w0 = true
  /\ first_fault (faults w0) (create_steps ++ [CommitTransaction]) = None
  /\ faults w0 (Call "GroupMember" "aggregate") = None
  /\ exists g w',
       GroupService.create "new" 10 None w0 = (Return (Some g), w')
       /\ GroupService.findOne (g_id g) None w' = (Return (Some g), w').
Proof.
  repeat (split; [reflexivity|]).
  destruct (create_then_read_back "new" 10 None w0 eq_refl eq_refl eq_refl)
    as [g [w' [Hc [Hf _]]]].
  exists g, w'. split; assumption.
Defined.

Lemma create_appends_one_row_to_the_creators_list_witness :
  generator_ahead w0 = true
  /\ first_fault (faults w0) (create_steps ++ [CommitTransaction]) = None
  /\ faults w0 (Call "GroupMember" "aggregate") = None
  /\ exists g w' rows,
       GroupService.create "new" 10 None w0 = (Return (Some g), w')
       /\ GroupService.findAll 10 w0 = (Return rows, w0).
Proof.
  repeat (split; [reflexivity|]).
  destruct (create_appends_one_row_to_the_creators_list
              "new" 10 None 10 w0 eq_refl eq_refl eq_refl)
    as [g [w' [rows [Hc [Hf _]]]]].
  exists g, w', rows. split; assumption.
Defined.

Lemma create_appends_one_row_to_the_application_list_witness :
  generator_ahead w0 = true
  /\ first_fault (faults w0) (create_steps ++ [CommitTransaction]) = None
  /\ faults w0 (Call "GroupApplication" "aggregate") = None
  /\ exists g w' rows,
       GroupService.create "new" 10 (Some "app-2") w0 = (Return (Some g), w')
       /\ GroupService.findGroupsByAppidAndUid "app-2" 10 w0 = (Return rows, w0).
Proof.
  repeat (split; [reflexivity|]).
  destruct (create_appends_one_row_to_the_application_list
              "new" 10 (Some "app-2") "app-2" 10 w0 eq_refl eq_refl eq_refl)
    as [g [w' [rows [Hc [Hf _]]]]].
  exists g, w', rows. split; assumption.
Defined.

Lemma create_then_delete_restores_the_store_witness :
  generator_ahead w0 = true
  /\ first_fault (faults w0) (create_steps ++ [CommitTransaction]) = None
  /\ first_fault (faults w0) delete_steps = None
  /\ exists g w' w'',
       GroupService.create "new" 10 None w0 = (Return (Some g), w')
       /\ GroupService.delete (g_id g) None w' = (Return (Some g), w'')
       /\ store w'' = store w0.
Proof.
  repeat (split; [reflexivity|]).
  exact (create_then_delete_restores_the_store "new" 10 None w0
           eq_refl eq_refl eq_refl).
Defined.

Lemma create_never_changes_countGroups_witness :
  faults w0 (Call "Group" "countDocuments") = None
  /\ fst (GroupService.countGroups 10
            (snd (GroupService.create "new" 10 None w0)))
     = fst (GroupService.countGroups 10 w0).
Proof.
  split; [reflexivity|].
  exact (create_never_changes_countGroups "new" 10 10 None w0 eq_refl).
Defined.

Lemma create_keeps_keys_unique_witness :
  generator_ahead w0 = true
  /\ NoDup (map g_id (Groups (store w0)))
  /\ NoDup (map (fun m => (m_groupId m, m_uid m)) (GroupMembers (store w0)))
  /\ NoDup (map (fun a => (a_groupId a, a_appid a))
                (GroupApplications (store w0)))
  /\ generator_ahead (snd (GroupService.create "new" 10 None w0)) = true.
Proof.
  assert (H1 : NoDup (map g_id (Groups (store w0)))) by distinct.
  assert (H2 : NoDup (map (fun m => (m_groupId m, m_uid m))
                          (GroupMembers (store w0)))) by distinct.
  assert (H3 : NoDup (map (fun a => (a_groupId a, a_appid a))
                          (GroupApplications (store w0)))) by distinct.
  split; [reflexivity|]. split; [exact H1|]. split; [exact H2|].
  split; [exact H3|].
  destruct (create_keeps_keys_unique "new" 10 None w0 eq_refl H1 H2 H3)
    as [H _].
  exact H.
Defined.

Lemma delete_never_touches_other_groups_witness :
  2 <> 1
  /\ members_of (store (snd (GroupService.delete 1 None w0))) 2
     = members_of (store w0) 2.
Proof.
  assert (H : 2 <> 1) by lia.
  split; [exact H|].
  destruct (delete_never_touches_other_groups 1 2 None w0 H) as [_ [Hm _]].
  exact Hm.
Defined.

Lemma delete_keeps_keys_unique_witness :
  generator_ahead w0 = true
  /\ NoDup (map g_id (Groups (store w0)))
  /\ NoDup (map (fun m => (m_groupId m, m_uid m)) (GroupMembers (store w0)))
  /\ NoDup (map (fun a => (a_groupId a, a_appid a))
                (GroupApplications (store w0)))
  /\ generator_ahead (snd (GroupService.delete 1 None w0)) = true.
Proof.
  assert (H1 : NoDup (map g_id (Groups (store w0)))) by distinct.
  assert (H2 : NoDup (map (fun m => (m_groupId m, m_uid m))
                          (GroupMembers (store w0)))) by distinct.
  assert (H3 : NoDup (map (fun a => (a_groupId a, a_appid a))
                          (GroupApplications (store w0)))) by distinct.
  split; [reflexivity|]. split; [exact H1|]. split; [exact H2|].
  split; [exact H3|].
  destruct (delete_keeps_keys_unique 1 None w0 eq_refl H1 H2 H3) as [H _].
  exact H.
Defined.

Lemma delete_then_reads_find_nothing_witness :
  NoDup (map g_id (Groups (store w0)))
  /\ GroupService.delete 1 None w0
     = (Return (Some (mkGroup 1 "plain" Null 10 5 5)),
        snd (GroupService.delete 1 None w0))
  /\ faults w0 (Call "GroupMember" "aggregate") = None
  /\ faults w0 (Call "GroupApplication" "aggregate") = None
  /\ GroupService.findOne 1 None (snd (GroupService.delete 1 None w0))
     = (Return None, snd (GroupService.delete 1 None w0)).
Proof.
  assert (H1 : NoDup (map g_id (Groups (store w0)))) by distinct.
  assert (H2 : GroupService.delete 1 None w0
               = (Return (Some (mkGroup 1 "plain" Null 10 5 5)),
                  snd (GroupService.delete 1 None w0))) by reflexivity.
  split; [exact H1|]. split; [exact H2|].
  split; [reflexivity|]. split; [reflexivity|].
  destruct (delete_then_reads_find_nothing 1 None w0 _ _ H1 H2 eq_refl eq_refl)
    as [H _].
  exact H.
Defined.

Lemma update_twice_is_update_once_witness :
  faults w0 (Call "Group" "findOneAndUpdate") = None
  /\ GroupService.update 1 (mkPartialGroup (Some "renamed") None None None None)
       (snd (GroupService.update 1
               (mkPartialGroup (Some "renamed") None None None None) w0))
     = GroupService.update 1
         (mkPartialGroup (Some "renamed") None None None None) w0.
Proof.
  split; [reflexivity|].
  exact (update_twice_is_update_once 1
           (mkPartialGroup (Some "renamed") None None None None) w0 eq_refl).
Defined.

Lemma update_with_appid_hides_the_group_from_findAll_witness :
  NoDup (map g_id (Groups (store w0)))
  /\ (exists g, In g (Groups (store w0)) /\ g_id g = 1)
  /\ exists rows,
       GroupService.findAll 10
         (snd (GroupService.update 1
                 (mkPartialGroup None (Some (Some "app-9")) None None None) w0))
       = (Return rows,
          snd (GroupService.update 1
                 (mkPartialGroup None (Some (Some "app-9")) None None None) w0))
       /\ ~ In (Some (VObjectId 1)) (map row_id rows).
Proof.
  assert (H1 : NoDup (map g_id (Groups (store w0)))) by distinct.
  assert (H2 : exists g, In g (Groups (store w0)) /\ g_id g = 1).
  { exists (mkGroup 1 "plain" Null 10 5 5). split; [now left|reflexivity]. }
  split; [exact H1|]. split; [exact H2|].
  exact (update_with_appid_hides_the_group_from_findAll
           1 10 "app-9"
           (mkPartialGroup None (Some (Some "app-9")) None None None) w0
           eq_refl H1 eq_refl eq_refl H2).
Defined.

Lemma findAll_rows_contain_the_caller_witness :
  faults w0 (Call "GroupMember" "aggregate") = None
  /\ exists rows, GroupService.findAll 10 w0 = (Return rows, w0).
Proof.
  split; [reflexivity|].
  destruct (findAll_rows_contain_the_caller w0 10 eq_refl) as [rows [H _]].
  exists rows. exact H.
Defined.

Lemma findAll_rows_resolve_in_findOneWithRole_witness :
  faults w0 (Call "GroupMember" "aggregate") = None
  /\ exists rows, GroupService.findAll 10 w0 = (Return rows, w0).
Proof.
  split; [reflexivity|].
  destruct (findAll_rows_resolve_in_findOneWithRole w0 10 eq_refl)
    as [rows [H _]].
  exists rows. exact H.
Defined.

Lemma delete_ends_the_session_it_started_witness :
  faults w0 (Call "Group" "findOne") = None
  /\ exists t d,
       sessions (snd (GroupService.delete 1 None w0))
       = sessions w0 ++ [mkSession t d true].
Proof.
  split; [reflexivity|].
  destruct (delete_ends_the_session_it_started 1 w0 eq_refl)
    as [t [d [H _]]].
  exists t, d. exact H.
Defined.
